(** * jayloop/table: the table model, row ingestion, sorting and rendering

    A shallow embedding of [table.go] (package [table]), of its ANSI styles
    ([Format], [Background]) and of the parts of Go's runtime and standard
    library that it calls ([len([]rune(s))], [strings.Compare], [strconv],
    [sort.Sort]), followed by the properties of the package that its
    specification states and by further properties of the code.

    Conventions.
    - A Go [string] is a byte sequence: [string], one [ascii] per byte.
    - A Go [int] is 64 bits wide and embedded in [Z]; arithmetic the source
      performs on it is wrapped by [int].
    - A nil-able [FormatFunc] is an [option]; format functions are pure.
    - A method on [*Table] is a computation over the table it points to:
      it yields the table left behind and how the call ended ([outcome]),
      also when the call panics. *)

From Stdlib Require Import ZArith Lia Ascii String Floats DecimalString.
From Stdlib Require Import Sorting.Sorted Sorting.Permutation.
From Stdlib Require DecimalPos.
From stdpp Require Import base list gmap strings sorting.

Local Open Scope Z_scope.

(** ** Go strings and integers *)

Definition byteVal (c : ascii) : Z := Z.of_N (N_of_ascii c).

Definition wrap (bits x : Z) : Z :=
  (x + 2 ^ (bits - 1)) mod 2 ^ bits - 2 ^ (bits - 1).

(** [int] on a 64-bit platform. *)
Definition int (x : Z) : Z := wrap 64 x.

(** [len(s)]: the number of bytes. *)
Definition len (s : string) : Z := Z.of_nat (String.length s).

(** [s[:n]] for [0 <= n <= len(s)]; the bounds are checked by the caller. *)
Fixpoint sliceTo (n : nat) (s : string) : string :=
  match n, s with
  | S n', String c s' => String c (sliceTo n' s')
  | _, _ => EmptyString
  end.

(** [s[:n]] with Go's bounds check: [None] stands for the run-time panic
    "slice bounds out of range". *)
Definition slicePrefix (s : string) (n : Z) : option string :=
  if (n <? 0) || (len s <? n) then None else Some (sliceTo (Z.to_nat n) s).

(** [l[i]] with Go's bounds check. *)
Definition index {A} (l : list A) (i : Z) : option A :=
  if i <? 0 then None else l !! Z.to_nat i.

Module Utf8.

(** Continuation byte, [locb <= b <= hicb]. *)
Definition cont (c : ascii) : bool :=
  (128 <=? byteVal c) && (byteVal c <=? 191).

Definition low6 (c : ascii) : Z := Z.land (byteVal c) 63.

(** [runtime.decoderune] at the head [c] of a string whose tail is [rest]:
    the number of bytes the decoded rune takes. An ill-formed or truncated
    sequence decodes to [RuneError] and takes one byte. *)
Definition decodeWidth (c : ascii) (rest : string) : nat :=
  let b := byteVal c in
  if (192 <=? b) && (b <? 224) then
    match rest with
    | String c1 _ =>
        if cont c1 then
          let r := Z.lor (Z.shiftl (Z.land b 31) 6) (low6 c1) in
          if 127 <? r then 2%nat else 1%nat
        else 1%nat
    | _ => 1%nat
    end
  else if (224 <=? b) && (b <? 240) then
    match rest with
    | String c1 (String c2 _) =>
        if cont c1 && cont c2 then
          let r := Z.lor (Z.lor (Z.shiftl (Z.land b 15) 12)
                                (Z.shiftl (low6 c1) 6)) (low6 c2) in
          if (2047 <? r) && negb ((55296 <=? r) && (r <=? 57343))
          then 3%nat else 1%nat
        else 1%nat
    | _ => 1%nat
    end
  else if (240 <=? b) && (b <? 248) then
    match rest with
    | String c1 (String c2 (String c3 _)) =>
        if cont c1 && cont c2 && cont c3 then
          let r := Z.lor (Z.lor (Z.lor (Z.shiftl (Z.land b 7) 18)
                                       (Z.shiftl (low6 c1) 12))
                                (Z.shiftl (low6 c2) 6)) (low6 c3) in
          if (65535 <? r) && (r <=? 1114111) then 4%nat else 1%nat
        else 1%nat
    | _ => 1%nat
    end
  else 1%nat.

(** The loop [for range s { n++ }] behind [len([]rune(s))]; [skip] counts
    the bytes of the current rune that are still to be stepped over. *)
Fixpoint countFrom (skip : nat) (s : string) : nat :=
  match s with
  | EmptyString => 0%nat
  | String c rest =>
      match skip with
      | S k => countFrom k rest
      | O => S (countFrom (decodeWidth c rest - 1) rest)
      end
  end.

End Utf8.

(** [len([]rune(s))]. *)
Definition runeCount (s : string) : Z := Z.of_nat (Utf8.countFrom 0 s).

Module Strings.

(** [strings.Compare]: byte-wise lexicographic, -1, 0 or +1. *)
Fixpoint Compare (a b : string) : Z :=
  match a, b with
  | EmptyString, EmptyString => 0
  | EmptyString, String _ _ => -1
  | String _ _, EmptyString => 1
  | String x a', String y b' =>
      if byteVal x <? byteVal y then -1
      else if byteVal y <? byteVal x then 1
      else Compare a' b'
  end.

End Strings.

Module Strconv.

(** [strconv.Itoa], [strconv.FormatInt(n, 10)], [strconv.FormatUint(n, 10)]:
    decimal digits, a leading minus sign for a negative number. *)
Definition Itoa (n : Z) : string := NilZero.string_of_int (Z.to_int n).

Definition digit (d : Z) : ascii := ascii_of_N (Z.to_N (48 + d)).

(** The [p] low decimal digits of [n], most significant first. *)
Fixpoint lowDigits (p : nat) (n : Z) : string :=
  match p with
  | O => EmptyString
  | S p' => lowDigits p' (n / 10) +:+ String (digit (n mod 10)) EmptyString
  end.

(** [num / den] rounded to the nearest integer, a tie to the even one
    ([decimal.Round] on the exact decimal expansion). *)
Definition roundHalfEven (num den : Z) : Z :=
  let q := num / den in
  let r := num mod den in
  if 2 * r <? den then q
  else if den <? 2 * r then q + 1
  else if Z.even q then q else q + 1.

(** [m * 2^e * 10^p] rounded to an integer. *)
Definition scaled (m : positive) (e : Z) (p : Z) : Z :=
  if 0 <=? e then Z.pos m * 2 ^ e * 10 ^ p
  else roundHalfEven (Z.pos m * 10 ^ p) (2 ^ (- e)).

(** [fmtF]: sign, integer part, and [prec] fractional digits after a point
    when [prec > 0]; [n] is the magnitude scaled by [10^prec]. *)
Definition fmtF (neg : bool) (n : Z) (prec : Z) : string :=
  (if neg then "-" else EmptyString) +:+ Itoa (n / 10 ^ prec) +:+
  (if 0 <? prec then "." +:+ lowDigits (Z.to_nat prec) n else EmptyString).

(** [float32(val)] on the unpacked value. *)
Definition toFloat32 (x : spec_float) : spec_float :=
  match x with
  | S754_finite s m e => binary_round 24 128 s m e
  | _ => x
  end.

(** The digits [strconv] chooses for a negative precision (the shortest
    decimal that reads back as the same float) are left to the library. *)
Class ShortestDecimal := shortestDecimal : Z -> float -> string.

(** The value [FormatFloat] formats: [val] itself, or [float32(val)] for a
    bit size of 32. *)
Definition unpack (f : float) (bitSize : Z) : spec_float :=
  if bitSize =? 32 then toFloat32 (Prim2SF f) else Prim2SF f.


(** [strconv.FormatFloat(f, 'f', prec, bitSize)] for [bitSize] 32 or 64,
    the two calls [Row] makes. *)
Definition FormatFloat `{ShortestDecimal} (f : float) (prec bitSize : Z)
  : string :=
  match unpack f bitSize with
  | S754_nan => "NaN"
  | S754_infinity false => "+Inf"
  | S754_infinity true => "-Inf"
  | S754_zero neg =>
      if prec <? 0 then shortestDecimal bitSize f else fmtF neg 0 prec
  | S754_finite neg m e =>
      if prec <? 0 then shortestDecimal bitSize f
      else fmtF neg (scaled m e prec) prec
  end.

End Strconv.

(** An instance to run examples with; no example formats with a negative
    precision, so none depends on it. *)
Definition noShortest : Strconv.ShortestDecimal := fun _ _ => EmptyString.

(** ** Calls that may fail or panic *)

(** Go's [error], as its message. *)
Definition error : Type := string.

Inductive outcome (A : Type) : Type :=
| Done (a : A)       (* the call returned (a nil error, where it has one) *)
| Failed (e : error) (* the call returned the error [e] *)
| Panicked.          (* the call ended in a run-time panic *)
Arguments Done {A} a.
Arguments Failed {A} e.
Arguments Panicked {A}.

(** A computation over the state [St]: what it leaves behind and how it
    ended. *)
Definition M (St A : Type) : Type := St -> St * outcome A.

Definition ret {St A} (a : A) : M St A := fun s => (s, Done a).

Definition bind {St A B} (m : M St A) (k : A -> M St B) : M St B :=
  fun s =>
    match m s with
    | (s', Done a) => k a s'
    | (s', Failed e) => (s', Failed e)
    | (s', Panicked) => (s', Panicked)
    end.

Definition panic {St A} : M St A := fun s => (s, Panicked).
Definition get {St} : M St St := fun s => (s, Done s).
Definition modify {St} (f : St -> St) : M St unit := fun s => (f s, Done tt).

(** An index or slice expression: panics when out of range. *)
Definition checked {St A} (o : option A) : M St A :=
  match o with
  | Some a => ret a
  | None => panic
  end.

Declare Scope go_scope.
Delimit Scope go_scope with go.
Notation "x <- m ;; k" := (bind m (fun x => k))
  (at level 100, m at next level, right associativity) : go_scope.
Notation "m ;;; k" := (bind m (fun _ => k))
  (at level 100, right associativity) : go_scope.
Local Open Scope go_scope.

(** [for i, x := range l { body }]. *)
Fixpoint forRange {St A} (body : nat -> A -> M St unit) (l : list A)
  : M St unit :=
  match l with
  | [] => ret tt
  | x :: l' => body 0%nat x ;;; forRange (fun i => body (S i)) l'
  end.

(** [l[i] = x] with Go's bounds check. *)
Definition store {A} (l : list A) (i : Z) (x : A) : option (list A) :=
  if (i <? 0) || (Z.of_nat (length l) <=? i) then None
  else Some (<[Z.to_nat i := x]> l).

(** [l[:n]] with Go's bounds check ([n] never exceeds the capacity here). *)
Definition sliceList {A} (l : list A) (n : Z) : option (list A) :=
  if n <? 0 then None else Some (take (Z.to_nat n) l).

(** ** The table *)

Definition FormatFunc : Type := string -> string.

Record Table : Type := mkTable {
  columns : Z;
  headers : list string;
  rows : list (list string);
  widths : list Z;
  maxWidths : list Z;
  precision : list Z;
  padding : Z;
  format : list (option FormatFunc);
  formatHeader : option FormatFunc;
  formatRow : gmap Z (option FormatFunc);
  formatNotZero : gmap Z (option FormatFunc);
  sortBy : list Z
}.

Definition set_rows (x : list (list string)) (t : Table) : Table :=
  mkTable (columns t) (headers t) x (widths t) (maxWidths t) (precision t)
    (padding t) (format t) (formatHeader t) (formatRow t) (formatNotZero t)
    (sortBy t).
Definition set_widths (x : list Z) (t : Table) : Table :=
  mkTable (columns t) (headers t) (rows t) x (maxWidths t) (precision t)
    (padding t) (format t) (formatHeader t) (formatRow t) (formatNotZero t)
    (sortBy t).
Definition set_maxWidths (x : list Z) (t : Table) : Table :=
  mkTable (columns t) (headers t) (rows t) (widths t) x (precision t)
    (padding t) (format t) (formatHeader t) (formatRow t) (formatNotZero t)
    (sortBy t).
Definition set_precision (x : list Z) (t : Table) : Table :=
  mkTable (columns t) (headers t) (rows t) (widths t) (maxWidths t) x
    (padding t) (format t) (formatHeader t) (formatRow t) (formatNotZero t)
    (sortBy t).
Definition set_padding (x : Z) (t : Table) : Table :=
  mkTable (columns t) (headers t) (rows t) (widths t) (maxWidths t)
    (precision t) x (format t) (formatHeader t) (formatRow t)
    (formatNotZero t) (sortBy t).
Definition set_format (x : list (option FormatFunc)) (t : Table) : Table :=
  mkTable (columns t) (headers t) (rows t) (widths t) (maxWidths t)
    (precision t) (padding t) x (formatHeader t) (formatRow t)
    (formatNotZero t) (sortBy t).
Definition set_formatHeader (x : option FormatFunc) (t : Table) : Table :=
  mkTable (columns t) (headers t) (rows t) (widths t) (maxWidths t)
    (precision t) (padding t) (format t) x (formatRow t) (formatNotZero t)
    (sortBy t).
Definition set_formatRow (x : gmap Z (option FormatFunc)) (t : Table) : Table :=
  mkTable (columns t) (headers t) (rows t) (widths t) (maxWidths t)
    (precision t) (padding t) (format t) (formatHeader t) x (formatNotZero t)
    (sortBy t).
Definition set_formatNotZero (x : gmap Z (option FormatFunc)) (t : Table)
  : Table :=
  mkTable (columns t) (headers t) (rows t) (widths t) (maxWidths t)
    (precision t) (padding t) (format t) (formatHeader t) (formatRow t) x
    (sortBy t).
Definition set_sortBy (x : list Z) (t : Table) : Table :=
  mkTable (columns t) (headers t) (rows t) (widths t) (maxWidths t)
    (precision t) (padding t) (format t) (formatHeader t) (formatRow t)
    (formatNotZero t) x.

(** [m[k]] on a [map[int]FormatFunc]: nil when the key is absent. *)
Definition mapGet (m : gmap Z (option FormatFunc)) (k : Z) : option FormatFunc :=
  match m !! k with
  | Some f => f
  | None => None
  end.

(** The loop [for i, h := range headers { t.widths[i] = len([]rune(h)) }]
    of [New], on the zeroed slice [dst]. *)
Fixpoint headerWidths (i : nat) (hs : list string) (dst : list Z) : list Z :=
  match hs with
  | [] => dst
  | h :: hs' => headerWidths (S i) hs' (<[i := runeCount h]> dst)
  end.

(** [New(headers...)]; [defaultHeaderFormat] is the value of the package
    variable of that name when [New] runs. *)
Definition New (defaultHeaderFormat : option FormatFunc) (hs : list string)
  : Table :=
  let l := length hs in
  {| columns := Z.of_nat l;
     headers := hs;
     rows := [];
     widths := headerWidths 0 hs (replicate l 0);
     maxWidths := replicate l 0;
     precision := replicate l 0;
     padding := 2;
     format := replicate l None;
     formatHeader := defaultHeaderFormat;
     formatRow := ∅;
     formatNotZero := ∅;
     sortBy := [] |}.

Definition inColumns (t : Table) (col : Z) : bool :=
  (0 <=? col) && (col <? columns t).

Definition FormatHeader (fn : option FormatFunc) : M Table unit :=
  modify (set_formatHeader fn).

Definition Padding (p : Z) : M Table unit := modify (set_padding p).

Definition MaxWidth (chars : Z) (cols : list Z) : M Table unit :=
  forRange (fun _ col =>
    t <- get ;;
    if inColumns t col then
      l <- checked (store (maxWidths t) col chars) ;;
      modify (set_maxWidths l)
    else ret tt) cols.

Definition Precision (digits : Z) (cols : list Z) : M Table unit :=
  forRange (fun _ col =>
    t <- get ;;
    if inColumns t col then
      l <- checked (store (precision t) col digits) ;;
      modify (set_precision l)
    else ret tt) cols.

Definition FormatRows (fn : option FormatFunc) (rws : list Z) : M Table unit :=
  forRange (fun _ row =>
    t <- get ;;
    let row := if row =? -1 then int (Z.of_nat (length (rows t)) - 1) else row in
    modify (set_formatRow (<[row := fn]> (formatRow t)))) rws.

Definition FormatCols (fn : option FormatFunc) (cols : list Z) : M Table unit :=
  forRange (fun _ col =>
    t <- get ;;
    if inColumns t col then
      l <- checked (store (format t) col fn) ;;
      modify (set_format l)
    else ret tt) cols.

Definition FormatNotZero (fn : option FormatFunc) (cols : list Z)
  : M Table unit :=
  forRange (fun _ col =>
    t <- get ;;
    if inColumns t col then
      modify (set_formatNotZero (<[col := fn]> (formatNotZero t)))
    else ret tt) cols.

(** ** Sorting *)

Module GoSort.

(** [sort.Interface]. *)
Class Interface (St : Type) : Type := {
  Len : M St Z;
  Less : Z -> Z -> M St bool;
  Swap : Z -> Z -> M St unit
}.

(** The inner loop of [insertionSort]:
    [for j := i; j > 0 && data.Less(j, j-1); j-- { data.Swap(j, j-1) }]. *)
Fixpoint insertionInner {St} `{Interface St} (j : nat) : M St unit :=
  match j with
  | O => ret tt
  | S j' =>
      lt <- Less (Z.of_nat j) (Z.of_nat j') ;;
      if lt : bool then Swap (Z.of_nat j) (Z.of_nat j') ;;; insertionInner j'
      else ret tt
  end.

(** [insertionSort(data, 0, n)]. *)
Definition insertionSort {St} `{Interface St} (n : nat) : M St unit :=
  forRange (fun _ i => insertionInner i) (seq 1 (n - 1)).

(** [sort.Sort(data)]. The library sorts up to twelve elements with
    [insertionSort] alone and longer inputs with a quicksort that ends in
    it; [insertionSort] stands for both here. Which of two rows with equal
    keys comes first is therefore not part of any statement below. *)
Definition Sort {St} `{Interface St} : M St unit :=
  n <- Len ;;
  if n <=? 1 then ret tt else insertionSort (Z.to_nat n).

End GoSort.

Definition Len : M Table Z :=
  t <- get ;; ret (Z.of_nat (length (rows t))).

(** The loop of [Less]; [c] is the last comparison made. [None]: an index
    is out of range. *)
Fixpoint lessLoop (rws : list (list string)) (i j : Z) (ks : list Z) (c : Z)
  : option Z :=
  match ks with
  | [] => Some c
  | k :: ks' =>
      match index rws i ≫= (fun r => index r k),
            index rws j ≫= (fun r => index r k) with
      | Some a, Some b =>
          let c := Strings.Compare a b in
          if c =? 0 then lessLoop rws i j ks' c else Some c
      | _, _ => None
      end
  end.

Definition Less (i j : Z) : M Table bool :=
  t <- get ;;
  c <- checked (lessLoop (rows t) i j (sortBy t) 0) ;;
  ret (c <? 0).

Definition Swap (i j : Z) : M Table unit :=
  t <- get ;;
  rj <- checked (index (rows t) j) ;;
  ri <- checked (index (rows t) i) ;;
  l1 <- checked (store (rows t) i rj) ;;
  l2 <- checked (store l1 j ri) ;;
  modify (set_rows l2).

#[export] Instance Table_Interface : GoSort.Interface Table :=
  {| GoSort.Len := Len; GoSort.Less := Less; GoSort.Swap := Swap |}.

Definition Sort (cols : list Z) : M Table unit :=
  modify (set_sortBy cols) ;;; GoSort.Sort.

(** ** Row ingestion *)

(** A value passed as [interface{}], by the dynamic types [Row] tells
    apart. An integer payload stands for the value of its type it is
    congruent to; a [float32] payload is the value widened to 64 bits; a
    pointer is [None] when nil; [VOther] is a value of any other type and
    carries what [fmt.Sprintf("%v", v)] prints for it. *)
Inductive value : Type :=
| VInt32 (n : Z)
| VInt64 (n : Z)
| VUint64 (n : Z)
| VFloat32 (f : float)
| VFloat64 (f : float)
| VInt (n : Z)
| VUint32 (n : Z)
| VBytesPtr (p : option string)
| VStringPtr (p : option string)
| VNil
| VBool (b : bool)
| VString (s : string)
| VOther (text : string).

(** The type switch of [Row] under precision [p]. [None]: a nil pointer is
    dereferenced. *)
Definition stringify `{Strconv.ShortestDecimal} (p : Z) (v : value)
  : option string :=
  match v with
  | VInt32 n => Some (Strconv.Itoa (wrap 32 n))
  | VInt64 n => Some (Strconv.Itoa (wrap 64 n))
  | VUint64 n => Some (Strconv.Itoa (n mod 2 ^ 64))
  | VFloat32 f => Some (Strconv.FormatFloat f p 32)
  | VFloat64 f => Some (Strconv.FormatFloat f p 64)
  | VInt n => Some (Strconv.Itoa (int n))
  | VUint32 n => Some (Strconv.Itoa (n mod 2 ^ 32))
  | VBytesPtr p => p
  | VStringPtr p => p
  | VNil => Some EmptyString
  | VBool b => Some (if b then "yes" else EmptyString)
  | VString s => Some s
  | VOther text => Some text
  end.

(** One iteration of the loop of [Row]: the text of value [v] at position
    [i], with the column's width raised to its length. *)
Definition rowCell `{Strconv.ShortestDecimal} (i : nat) (v : value)
  : M Table string :=
  t <- get ;;
  p <- checked (precision t !! i) ;;
  let p := if p =? 0 then 2 else p in
  v2 <- checked (stringify p v) ;;
  w <- checked (widths t !! i) ;;
  (if w <? runeCount v2
   then modify (set_widths (<[i := runeCount v2]> (widths t)))
   else ret tt) ;;;
  ret v2.

Fixpoint rowLoop `{Strconv.ShortestDecimal} (i : nat) (values : list value)
  : M Table (list string) :=
  match values with
  | [] => ret []
  | v :: values' =>
      v2 <- rowCell i v ;;
      row <- rowLoop (S i) values' ;;
      ret (v2 :: row)
  end.

Definition Row `{Strconv.ShortestDecimal} (values : list value) : M Table unit :=
  t <- get ;;
  values <- (if columns t <? Z.of_nat (length values)
             then checked (sliceList values (columns t))
             else ret values) ;;
  row <- rowLoop 0 values ;;
  t <- get ;;
  modify (set_rows (rows t ++ [row])).

(** The argument of [AddStruct] as [reflect] sees it. A field is its name
    and its value, [None] when the field is unexported and its [Interface()]
    panics. *)
Inductive reflected : Type :=
| RNil                      (* a nil interface: [TypeOf] is nil, [Kind()] panics *)
| RNotStruct
| RStruct (fields : list (string * option value)).

Definition AddStruct `{Strconv.ShortestDecimal} (m : reflected) : M Table unit :=
  match m with
  | RNil => panic
  | RNotStruct => ret tt
  | RStruct fields =>
      forRange (fun _ fld =>
        v <- checked (snd fld) ;;
        Row [VString (fst fld); v]) fields
  end.

(** ** Rendering *)

Definition newline : string := String (ascii_of_nat 10) EmptyString.

(** [io.Writer], on the state of the sink; the byte count [Write] returns
    is not used by [Print]. *)
Class Writer (W : Type) : Type := Write : string -> M W unit.

(** A sink that keeps every chunk it is handed and never fails. *)
#[export] Instance Recorder : Writer (list string) :=
  fun b => modify (fun w => w ++ [b]).

(** Run a computation on the table, or on the sink, of a pair of both. *)
Definition onTable {W A} (m : M Table A) : M (Table * W) A :=
  fun s => let '(t, r) := m (fst s) in ((t, snd s), r).
Definition onSink {W A} (m : M W A) : M (Table * W) A :=
  fun s => let '(w, r) := m (snd s) in ((fst s, w), r).

Fixpoint appendWhitespaceLoop (n : nat) (b : string) : string :=
  match n with
  | O => b
  | S n' => appendWhitespaceLoop n' (b +:+ " ")
  end.

Definition appendWhitespace (b : string) (count : Z) : string :=
  appendWhitespaceLoop (Z.to_nat count) b.

(** The first loop of [Print]: a tracked width above a positive cap is
    overwritten with the cap. *)
Definition clampWidths : M Table unit :=
  t0 <- get ;;
  forRange (fun i w =>
    t <- get ;;
    mw <- checked (maxWidths t !! i) ;;
    if (0 <? mw) && (mw <? w)
    then modify (set_widths (<[i := mw]> (widths t)))
    else ret tt) (widths t0).

(** [if t.maxWidths[i] > 0 && len([]rune(s)) > t.maxWidths[i]
     { s = s[:t.maxWidths[i]-3] + "..." }]. *)
Definition truncateTo {W} (t : Table) (i : nat) (s : string) : M W string :=
  mw <- checked (maxWidths t !! i) ;;
  if (0 <? mw) && (mw <? runeCount s)
  then pre <- checked (slicePrefix s (int (mw - 3))) ;; ret (pre +:+ "...")
  else ret s.

(** What follows the text of a cell of column [i]: [p] spaces, except in
    the last column. *)
Definition padded (t : Table) (i : nat) (text : string) (p : Z) : string :=
  if Z.of_nat i =? int (columns t - 1) then text
  else appendWhitespace text p.

(** The body of the header loop. *)
Definition printHeader {W} `{Writer W} (t : Table) (i : nat) (h : string)
  : M W unit :=
  h <- truncateTo t i h ;;
  w <- checked (widths t !! i) ;;
  let l := int (w + padding t) in
  let p := int (l - runeCount h) in
  let h := match formatHeader t with
           | Some f => f h
           | None => h
           end in
  Write (padded t i h p).

(** The [switch] of the cell loop on the cell of row [j] and column [i]
    whose text, after truncation, is [r]. *)
Definition styled {W} (t : Table) (j i : nat) (r : string) : M W string :=
  match mapGet (formatNotZero t) (Z.of_nat i), bool_decide (r ≠ "0") with
  | Some f, true => ret (f r)
  | _, _ =>
      match mapGet (formatRow t) (Z.of_nat j) with
      | Some f => ret (f r)
      | None =>
          fc <- checked (format t !! i) ;;
          match fc with
          | Some f => ret (f r)
          | None => ret r
          end
      end
  end.

(** The body of the cell loop. *)
Definition printCell {W} `{Writer W} (t : Table) (j i : nat) (r : string)
  : M W unit :=
  r <- truncateTo t i r ;;
  w <- checked (widths t !! i) ;;
  let l := int (w + padding t) in
  let p := int (l - runeCount r) in
  r <- styled t j i r ;;
  Write (padded t i r p).

Definition printRow {W} `{Writer W} (t : Table) (j : nat) (row : list string)
  : M W unit :=
  forRange (printCell t j) row ;;; Write newline.

(** What [Print] does once the widths are clamped: the header line, then a
    line per row. *)
Definition printLines {W} `{Writer W} (t : Table) : M W unit :=
  forRange (printHeader t) (headers t) ;;;
  Write newline ;;;
  forRange (printRow t) (rows t).

(** [Print(out)]: the state is the table and the sink. *)
Definition Print {W} `{Writer W} : M (Table * W) unit :=
  onTable clampWidths ;;;
  s <- get ;;
  onSink (printLines (fst s)).

(** ** States a program can reach *)

(** A call of an exported method that can change the table. *)
Inductive call : Type :=
| CAddStruct (m : reflected)
| CFormatHeader (fn : option FormatFunc)
| CPadding (p : Z)
| CMaxWidth (chars : Z) (cols : list Z)
| CPrecision (digits : Z) (cols : list Z)
| CFormatRows (fn : option FormatFunc) (rws : list Z)
| CFormatCols (fn : option FormatFunc) (cols : list Z)
| CFormatNotZero (fn : option FormatFunc) (cols : list Z)
| CSwap (i j : Z)
| CSort (cols : list Z)
| CRow (values : list value)
| CPrint (W : Type) (writer : Writer W) (out : W).

(** The table a call leaves behind, however the call ends. *)
Definition exec `{Strconv.ShortestDecimal} (c : call) (t : Table) : Table :=
  match c with
  | CAddStruct m => fst (AddStruct m t)
  | CFormatHeader fn => fst (FormatHeader fn t)
  | CPadding p => fst (Padding p t)
  | CMaxWidth chars cols => fst (MaxWidth chars cols t)
  | CPrecision digits cols => fst (Precision digits cols t)
  | CFormatRows fn rws => fst (FormatRows fn rws t)
  | CFormatCols fn cols => fst (FormatCols fn cols t)
  | CFormatNotZero fn cols => fst (FormatNotZero fn cols t)
  | CSwap i j => fst (Swap i j t)
  | CSort cols => fst (Sort cols t)
  | CRow values => fst (Row values t)
  | CPrint W writer out => fst (fst (Print (t, out)))
  end.

Inductive reachable `{Strconv.ShortestDecimal} : Table -> Prop :=
| reachable_New d hs : reachable (New d hs)
| reachable_call c t : reachable t -> reachable (exec c t).

(** What [New] sets up and every method keeps. *)
Record wf (t : Table) : Prop := mkWf {
  wf_columns : columns t = Z.of_nat (length (headers t));
  wf_widths : length (widths t) = length (headers t);
  wf_maxWidths : length (maxWidths t) = length (headers t);
  wf_precision : length (precision t) = length (headers t);
  wf_format : length (format t) = length (headers t);
  wf_rows : Forall (fun row => Z.of_nat (length row) <= columns t) (rows t)
}.

(** A sink whose [Write] always succeeds. *)
Definition Reliable (W : Type) `{Writer W} : Prop :=
  forall b w, exists w', Write b w = (w', Done tt).

(** ** The specification's notions *)

(** The widths the first loop of [Print] leaves, entry by entry. *)
Fixpoint clamped (ws mws : list Z) : list Z :=
  match ws, mws with
  | w :: ws', mw :: mws' =>
      (if (0 <? mw) && (mw <? w) then mw else w) :: clamped ws' mws'
  | _, _ => ws
  end.

Definition applyStyle (f : option FormatFunc) (s : string) : string :=
  match f with
  | Some g => g s
  | None => s
  end.

(** The one style of the cell of row [j] and column [i] whose text is
    [text]: the non-zero style of the column when there is one and the text
    is not "0", else the style of the row, else the style of the column. *)
Definition styleByPrecedence (t : Table) (j i : nat) (text : string)
  : option FormatFunc :=
  let nonZero := mapGet (formatNotZero t) (Z.of_nat i) in
  let perRow := mapGet (formatRow t) (Z.of_nat j) in
  let perColumn := default None (format t !! i) in
  if bool_decide (is_Some nonZero /\ text <> "0") then nonZero
  else if bool_decide (is_Some perRow) then perRow
  else perColumn.

(** The text of a cell of column [i] once the cap of the column is applied:
    the first [cap - 3] bytes and three dots when it has more code points
    than a positive cap. *)
Definition shown (t : Table) (i : nat) (s : string) : string :=
  match maxWidths t !! i with
  | Some mw =>
      if (0 <? mw) && (mw <? runeCount s)
      then sliceTo (Z.to_nat (int (mw - 3))) s +:+ "..."
      else s
  | None => s
  end.

Definition padFor (t : Table) (i : nat) (text : string) : Z :=
  int (int (default 0 (widths t !! i) + padding t) - runeCount text).

Definition renderedHeader (t : Table) (i : nat) (h : string) : string :=
  padded t i (applyStyle (formatHeader t) (shown t i h)) (padFor t i (shown t i h)).

Definition renderedCell (t : Table) (j i : nat) (r : string) : string :=
  padded t i (applyStyle (styleByPrecedence t j i r) (shown t i r))
    (padFor t i (shown t i r)).

(** The chunks of a complete rendering, in the order they are written. *)
Definition rendering (t : Table) : list string :=
  imap (renderedHeader t) (headers t) ++ [newline] ++
  concat (imap (fun j row => imap (renderedCell t j) row ++ [newline]) (rows t)).





















(** Text of one-byte code points only. *)
Fixpoint isAscii (s : string) : bool :=
  match s with
  | EmptyString => true
  | String c s' => (byteVal c <? 128) && isAscii s'
  end.

(** ** Notions the proofs use *)

(** The body of the first loop of [Print] at index [k]. *)
Definition clampBody (k : nat) (w : Z) : M Table unit :=
  t <- get ;;
  mw <- checked (maxWidths t !! k) ;;
  if (0 <? mw) && (mw <? w)
  then modify (set_widths (<[k := mw]> (widths t)))
  else ret tt.

(** The table [Print] leaves. *)
Definition clampedTable (t : Table) : Table :=
  set_widths (clamped (widths t) (maxWidths t)) t.

(** On the recording sink: the computation appends to what was recorded,
    and does the same whatever was recorded before. *)
Definition appends {A} (m : M (list string) A) : Prop :=
  forall w, m w = (w ++ fst (m []), snd (m [])).

(** The computation never ends with an error. *)
Definition noFail {St A} (m : M St A) : Prop :=
  forall s, match snd (m s) with Failed _ => False | _ => True end.

(** The computation keeps [P], however it ends. *)
Definition preserves {St A} (P : St -> Prop) (m : M St A) : Prop :=
  forall s, P s -> P (fst (m s)).

(** The precision [Row] formats with, given the stored one. *)
Definition effective (p : Z) : Z := if p =? 0 then 2 else p.

(** The values [Row] goes through: at most as many as there are columns. *)
Definition kept (t : Table) (values : list value) : list value :=
  if columns t <? Z.of_nat (length values)
  then take (Z.to_nat (columns t)) values else values.

(** The loop of [Less] on the two rows themselves. *)
Fixpoint cmpRows (ri rj : list string) (ks : list Z) (c : Z) : option Z :=
  match ks with
  | [] => Some c
  | k :: ks' =>
      match index ri k, index rj k with
      | Some a, Some b =>
          let c := Strings.Compare a b in
          if c =? 0 then cmpRows ri rj ks' c else Some c
      | _, _ => None
      end
  end.

Definition lessRows (cols : list Z) (ri rj : list string) : bool :=
  match cmpRows ri rj cols 0 with
  | Some c => c <? 0
  | None => false
  end.




(** ** Tables the examples run on *)

(** A header and a cell of six two-byte code points under a cap of five. *)
Definition accented : string := "éééééé".

Definition accentedTable : Table :=
  fst (Row (H := noShortest) [VString accented]
         (fst (MaxWidth 5 [0] (New None [accented])))).

(** A header of six letters under a cap of four. *)
Definition cappedTable : Table :=
  fst (MaxWidth 4 [0] (New None ["abcdef"])).

(** The rows of the specification's sorting example, and two rows whose
    first cells are "2" and "10". *)
Definition lettersTable : Table :=
  fst ((Row (H := noShortest) [VString "b"; VString "2"] ;;;
        Row (H := noShortest) [VString "a"; VString "1"] ;;;
        Row (H := noShortest) [VString "c"; VString "3"])
         (New None ["key"; "value"])).


(** A column with a column style and a non-zero style, rows 0 and 1 with a
    row style, and the cells 7, 0, 0. Each style puts its mark before the
    text. *)
Definition mark (m : string) : option FormatFunc := Some (fun s => m +:+ s).

Definition styledTable : Table :=
  fst ((FormatCols (mark "C") [0] ;;;
        FormatNotZero (mark "N") [0] ;;;
        Row (H := noShortest) [VInt 7] ;;;
        Row (H := noShortest) [VInt 0] ;;;
        Row (H := noShortest) [VInt 0] ;;;
        FormatRows (mark "R") [0; 1]) (New None ["n"])).



(** A header of three letters under a cap of two. *)
Definition tightTable : Table :=
  fst (MaxWidth 2 [0] (New None ["abc"])).

(** ** Styles: ANSI escape codes *)

Module Ansi.

(** [type CodeANSI int]. *)
Definition CodeANSI : Type := Z.

Definition Black : CodeANSI := 30.
Definition Red : CodeANSI := 31.
Definition Green : CodeANSI := 32.
Definition Yellow : CodeANSI := 33.
Definition Blue : CodeANSI := 34.
Definition Magenta : CodeANSI := 35.
Definition Cyan : CodeANSI := 36.
Definition White : CodeANSI := 37.

Definition HiBlack : CodeANSI := 90.
Definition HiRed : CodeANSI := 91.
Definition HiGreen : CodeANSI := 92.
Definition HiYellow : CodeANSI := 93.
Definition HiBlue : CodeANSI := 94.
Definition HiMagenta : CodeANSI := 95.
Definition HiCyan : CodeANSI := 96.
Definition HiWhite : CodeANSI := 97.

Definition Reset : CodeANSI := 0.
Definition Bold : CodeANSI := 1.
Definition Faint : CodeANSI := 2.
Definition Italic : CodeANSI := 3.
Definition Underline : CodeANSI := 4.
Definition BlinkSlow : CodeANSI := 5.
Definition BlinkRapid : CodeANSI := 6.
Definition Reverse : CodeANSI := 7.
Definition Conceal : CodeANSI := 8.
Definition CrossedOut : CodeANSI := 9.

Definition colorBgAdd : Z := 10.

(** [Background(c)]. *)
Definition Background (c : CodeANSI) : CodeANSI := int (int c + colorBgAdd).

(** The loop of [buildList] over what is left of [attr], at index [i], with
    [n = len(attr)] and [s] the text built so far. *)
Fixpoint buildListLoop (n : Z) (i : nat) (attr : list CodeANSI) (s : string)
  : string :=
  match attr with
  | [] => s
  | a :: rest =>
      let s := s +:+ Strconv.Itoa (int a) in
      let s := if Z.of_nat i =? int (n - 1) then s else s +:+ ";" in
      buildListLoop n (S i) rest s
  end.

Definition buildList (attr : list CodeANSI) : string :=
  buildListLoop (Z.of_nat (length attr)) 0 attr EmptyString.

(** The escape character, [\x1b]. *)
Definition esc : string := String (ascii_of_nat 27) EmptyString.

(** [Format(attr...)]: [fmt.Sprintf("\x1b[%sm%s\x1b[0m", a, s)]. *)
Definition Format (attr : list CodeANSI) : FormatFunc :=
  let a := buildList attr in
  fun s => esc +:+ "[" +:+ a +:+ "m" +:+ s +:+ esc +:+ "[0m".

End Ansi.

(** ** More notions the proofs use *)

(** [n] spaces. *)
Fixpoint spaces (n : nat) : string :=
  match n with
  | O => EmptyString
  | S n' => String " " (spaces n')
  end.

(** The text does not begin with a continuation byte. *)
Definition plainStart (t : string) : Prop :=
  match t with
  | EmptyString => True
  | String x _ => Utf8.cont x = false
  end.

(** A max width [Print] can apply: none (zero or below), or one that leaves
    room for the three dots and is an [int]. *)
Definition capOk (m : Z) : Prop := m <= 0 \/ 3 <= m < 2 ^ 63.

(** A sink that refuses every write with the error [e]; its state counts
    the calls of [Write]. *)
Definition failing (e : error) : Writer nat := fun _ n => (S n, Failed e).

(** No value is a nil pointer. *)
Definition noNilPointer (v : value) : Prop :=
  v <> VStringPtr None /\ v <> VBytesPtr None.

(** The row index [FormatRows] files a style under. *)
Definition resolveRow (t : Table) (row : Z) : Z :=
  if row =? -1 then int (Z.of_nat (length (rows t)) - 1) else row.

(** The row [AddStruct] appends for a field, in a table of two columns or
    more whose second column has the stored precision [p]. *)
Definition fieldRow `{Strconv.ShortestDecimal} (p : Z)
    (fld : string * option value) : list string :=
  [fst fld; default EmptyString (snd fld ≫= stringify (effective p))].

(** The table has the headers [hs] and the column count [n]. *)
Definition shaped (hs : list string) (n : Z) (t : Table) : Prop :=
  headers t = hs /\ columns t = n.

(** ** More tables the examples run on *)

(** A new table of two columns. *)
Definition pairTable : Table := New None ["key"; "value"].


Definition hiddenField : list (string * option value) :=
  [("Alloc", Some (VUint64 7)); ("secret", None); ("Ratio", Some (VInt 1))].

(** A table two calls away from [New]. *)
Definition startedTable : Table :=
  exec (H := noShortest) (CPadding 1)
    (exec (H := noShortest) (CRow [VInt 1]) pairTable).

(** * Properties *)

(** ** The monad *)

Lemma bind_inv_done {St A B} (m : M St A) (k : A -> M St B) s s2 b :
  bind m k s = (s2, Done b) ->
  exists s1 a, m s = (s1, Done a) /\ k a s1 = (s2, Done b).
Proof.
  unfold bind. destruct (m s) as [s1 [a|e|]]; intros E; try discriminate.
  eauto.
Qed.

Lemma forRange_ext {St A} (f g : nat -> A -> M St unit) l :
  (forall i x, f i x = g i x) -> forRange f l = forRange g l.
Proof.
  revert f g. induction l as [|x l IH]; intros f g E; simpl; [done|].
  rewrite E. f_equal. by rewrite (IH _ (fun i => g (S i))).
Qed.

Lemma insert_middle {A} (l1 l2 : list A) x y :
  <[length l1 := y]> (l1 ++ x :: l2) = l1 ++ y :: l2.
Proof. induction l1; simpl; by f_equal. Qed.

(** ** The first loop of [Print] *)

Lemma clampLoop_run ws : forall n pre mpre mws t,
  widths t = pre ++ ws -> maxWidths t = mpre ++ mws ->
  length pre = n -> length mpre = n ->
  forRange (fun i => clampBody (n + i)) ws t =
    (set_widths (pre ++ clamped ws mws) t,
     if (length ws <=? length mws)%nat then Done tt else Panicked).
Proof.
  induction ws as [|w ws IH]; intros n pre mpre mws t Hw Hm Hl Hl'.
  - simpl. unfold ret. f_equal. destruct t; simpl in *. by subst.
  - simpl. unfold bind at 1. unfold clampBody at 1. unfold bind, get, modify, checked, ret, panic; simpl.
    rewrite Hm, Nat.add_0_r, <- Hl'.
    destruct mws as [|mw mws].
    + rewrite lookup_ge_None_2 by (rewrite length_app; simpl; lia).
      f_equal. destruct t; simpl in *. by subst.
    + rewrite list_lookup_middle by done.
      rewrite (forRange_ext _ (fun i => clampBody (S n + i)))
        by (intros; f_equal; lia).
      destruct ((0 <? mw) && (mw <? w)) eqn:C.
      * rewrite (IH (S n) (pre ++ [mw]) (mpre ++ [mw]) mws).
        -- rewrite <- !app_assoc. reflexivity.
        -- simpl. rewrite Hw, Hl', <- Hl, <- app_assoc. simpl.
           by rewrite insert_middle.
        -- simpl. by rewrite <- app_assoc.
        -- rewrite !length_app. simpl. lia.
        -- rewrite !length_app. simpl. lia.
      * rewrite (IH (S n) (pre ++ [w]) (mpre ++ [mw]) mws).
        -- by rewrite <- !app_assoc.
        -- by rewrite Hw, <- app_assoc.
        -- by rewrite Hm, <- app_assoc.
        -- rewrite !length_app. simpl. lia.
        -- rewrite !length_app. simpl. lia.
Qed.

Lemma clampWidths_run t :
  clampWidths t =
    (set_widths (clamped (widths t) (maxWidths t)) t,
     if (length (widths t) <=? length (maxWidths t))%nat
     then Done tt else Panicked).
Proof.
  unfold clampWidths. unfold bind at 1, get at 1.
  apply (clampLoop_run (widths t) 0%nat [] [] (maxWidths t) t); done.
Qed.

Lemma clamped_length ws : forall mws, length (clamped ws mws) = length ws.
Proof. induction ws as [|w ws IH]; intros [|mw mws]; simpl; auto. Qed.

Lemma clamped_idem ws : forall mws, clamped (clamped ws mws) mws = clamped ws mws.
Proof.
  induction ws as [|w ws IH]; intros [|mw mws]; simpl; try done.
  rewrite IH. f_equal.
  destruct ((0 <? mw) && (mw <? w)) eqn:C; [|by rewrite C].
  replace (mw <? mw) with false by lia. by rewrite andb_false_r.
Qed.

Lemma set_widths_twice x y t : set_widths x (set_widths y t) = set_widths x t.
Proof. done. Qed.

Lemma set_widths_same t : set_widths (widths t) t = t.
Proof. by destruct t. Qed.

(** ** [Print] as a whole *)

Lemma Print_run {W} `{Writer W} t (w : W) :
  Print (t, w) =
    if (length (widths t) <=? length (maxWidths t))%nat
    then ((clampedTable t, fst (printLines (clampedTable t) w)),
          snd (printLines (clampedTable t) w))
    else ((clampedTable t, w), Panicked).
Proof.
  unfold Print, bind, onTable, onSink, get. simpl.
  rewrite clampWidths_run. fold (clampedTable t).
  destruct (length (widths t) <=? length (maxWidths t))%nat; [|done].
  simpl. by destruct (printLines (clampedTable t) w).
Qed.

Lemma clampedTable_idem t : clampedTable (clampedTable t) = clampedTable t.
Proof. unfold clampedTable. simpl. by rewrite clamped_idem. Qed.

Lemma Print_table {W} `{Writer W} t (w : W) :
  fst (fst (Print (t, w))) = clampedTable t.
Proof. rewrite Print_run. by destruct (_ <=? _)%nat. Qed.

Lemma Print_again {W} `{Writer W} t (w0 w : W) :
  Print (fst (fst (Print (t, w0))), w) = Print (t, w).
Proof.
  rewrite Print_table, !Print_run, clampedTable_idem.
  unfold clampedTable at 1 2. simpl. by rewrite clamped_length.
Qed.

(** ** The recording sink *)

Lemma appends_ret {A} (a : A) : appends (ret a).
Proof. intros w. unfold ret. simpl. by rewrite app_nil_r. Qed.

Lemma appends_panic {A} : appends (@panic _ A).
Proof. intros w. unfold panic. simpl. by rewrite app_nil_r. Qed.

Lemma appends_checked {A} (o : option A) : appends (checked o).
Proof. destruct o; [apply appends_ret | apply appends_panic]. Qed.

Lemma appends_Write b : appends (Write b).
Proof. intros w. done. Qed.

Lemma appends_bind {A B} (m : M (list string) A) (k : A -> M (list string) B) :
  appends m -> (forall a, appends (k a)) -> appends (bind m k).
Proof.
  intros Hm Hk w. unfold bind. rewrite (Hm w).
  destruct (m []) as [w1 [a|e|]]; simpl; try done.
  rewrite (Hk a (w ++ w1)), (Hk a w1). simpl. by rewrite app_assoc.
Qed.

Lemma appends_forRange {A} (body : nat -> A -> M (list string) unit) l :
  (forall i x, appends (body i x)) -> appends (forRange body l).
Proof.
  revert body. induction l as [|x l IH]; intros body Hb; simpl.
  - apply appends_ret.
  - apply appends_bind; [apply Hb|]. intros _. apply IH. intros; apply Hb.
Qed.

Ltac appends :=
  repeat first
    [ apply appends_ret | apply appends_panic | apply appends_checked
    | apply appends_Write
    | apply appends_forRange; intros
    | apply appends_bind; [|intros]
    | match goal with |- appends (if ?c then _ else _) => destruct c end
    | match goal with |- appends (match ?c with _ => _ end) => destruct c end ].

Lemma appends_printLines t : appends (printLines t).
Proof.
  unfold printLines, printRow, printHeader, printCell. appends.
  unfold styled. appends.
Qed.

(** Two calls of [Print] in a row hand the recording sink the same chunks. *)
Lemma Print_recorded t w :
  Print (t, w) =
    ((clampedTable t, w ++ snd (fst (Print (t, [])))), snd (Print (t, []))).
Proof.
  rewrite !Print_run. destruct (_ <=? _)%nat; simpl.
  - by rewrite (appends_printLines (clampedTable t) w).
  - by rewrite app_nil_r.
Qed.

(** ** Calls that cannot fail *)

Lemma noFail_ret {St A} (a : A) : noFail (@ret St A a).
Proof. by intros s. Qed.

Lemma noFail_panic {St A} : noFail (@panic St A).
Proof. by intros s. Qed.

Lemma noFail_checked {St A} (o : option A) : noFail (@checked St A o).
Proof. by destruct o; intros s. Qed.

Lemma noFail_get {St} : noFail (@get St).
Proof. by intros s. Qed.

Lemma noFail_modify {St} (f : St -> St) : noFail (modify f).
Proof. by intros s. Qed.

Lemma noFail_Write {W} `{Writer W} b : Reliable W -> noFail (Write b).
Proof. intros R w. destruct (R b w) as [w' E]. by rewrite E. Qed.

Lemma noFail_bind {St A B} (m : M St A) (k : A -> M St B) :
  noFail m -> (forall a, noFail (k a)) -> noFail (bind m k).
Proof.
  intros Hm Hk s. unfold bind. specialize (Hm s).
  destruct (m s) as [s1 [a|e|]]; simpl in *; try done. apply Hk.
Qed.

Lemma noFail_forRange {St A} (body : nat -> A -> M St unit) l :
  (forall i x, noFail (body i x)) -> noFail (forRange body l).
Proof.
  revert body. induction l as [|x l IH]; intros body Hb; simpl.
  - apply noFail_ret.
  - apply noFail_bind; [apply Hb|]. intros _. apply IH. intros; apply Hb.
Qed.

Ltac noFail :=
  repeat first
    [ apply noFail_ret | apply noFail_panic | apply noFail_checked
    | apply noFail_get | apply noFail_modify
    | apply noFail_Write; assumption
    | apply noFail_forRange; intros
    | apply noFail_bind; [|intros]
    | match goal with |- noFail (if ?c then _ else _) => destruct c end
    | match goal with |- noFail (match ?c with _ => _ end) => destruct c end ].

Lemma noFail_printHeader {W} `{Writer W} t i h :
  Reliable W -> noFail (printHeader t i h).
Proof. intros R. unfold printHeader. noFail. Qed.

Lemma noFail_printCell {W} `{Writer W} t j i r :
  Reliable W -> noFail (printCell t j i r).
Proof. intros R. unfold printCell. noFail. unfold styled. noFail. Qed.

Lemma noFail_printRow {W} `{Writer W} t j row :
  Reliable W -> noFail (printRow t j row).
Proof.
  intros R. unfold printRow. noFail. unfold styled. noFail.
Qed.

(** A loop panics when the iteration that panics is reached, and it is
    reached unless an earlier one panics, when no iteration can fail. *)
Lemma forRange_panics {St A} (body : nat -> A -> M St unit) l : forall i x,
  (forall k y, noFail (body k y)) ->
  l !! i = Some x ->
  (forall s, snd (body i x s) = Panicked) ->
  forall s, snd (forRange body l s) = Panicked.
Proof.
  revert body. induction l as [|y l IH]; intros body i x Hb Hi Hp s; [done|].
  simpl. unfold bind. destruct i as [|i]; simpl in Hi.
  - injection Hi as ->. specialize (Hp s). by destruct (body 0%nat x s) as [s1 [a|e|]].
  - pose proof (Hb 0%nat y s) as H0.
    destruct (body 0%nat y s) as [s1 [a|e|]]; simpl in *; try done.
    apply (IH (fun k => body (S k)) i x); auto.
Qed.

Lemma bind_panics {St A B} (m : M St A) (k : A -> M St B) :
  noFail m -> (forall a s, snd (k a s) = Panicked) ->
  forall s, snd (bind m k s) = Panicked.
Proof.
  intros Hm Hk s. unfold bind. specialize (Hm s).
  destruct (m s) as [s1 [a|e|]]; simpl in *; done.
Qed.

Lemma panics_bind {St A B} (m : M St A) (k : A -> M St B) s :
  snd (m s) = Panicked -> snd (bind m k s) = Panicked.
Proof.
  unfold bind. by destruct (m s) as [s1 [a|e|]]; simpl.
Qed.

Lemma truncateTo_panics {W} t i s m (w : W) :
  maxWidths t !! i = Some m -> 1 <= m <= 2 -> m < runeCount s ->
  truncateTo t i s w = (w, Panicked).
Proof.
  intros Hm Hr Hs. unfold truncateTo, bind, checked. rewrite Hm. simpl.
  replace (0 <? m) with true by lia. replace (m <? runeCount s) with true by lia.
  simpl. assert (m = 1 \/ m = 2) as [-> | ->] by lia; reflexivity.
Qed.

Lemma printHeader_panics {W} `{Writer W} t i h m :
  maxWidths t !! i = Some m -> 1 <= m <= 2 -> m < runeCount h ->
  forall w, snd (printHeader t i h w) = Panicked.
Proof.
  intros Hm Hr Hh w. unfold printHeader. apply panics_bind.
  by rewrite (truncateTo_panics t i h m).
Qed.

Lemma printCell_panics {W} `{Writer W} t j i r m :
  maxWidths t !! i = Some m -> 1 <= m <= 2 -> m < runeCount r ->
  forall w, snd (printCell t j i r w) = Panicked.
Proof.
  intros Hm Hr Hh w. unfold printCell. apply panics_bind.
  by rewrite (truncateTo_panics t i r m).
Qed.

Lemma printLines_panics {W} `{Writer W} t i m :
  Reliable W ->
  maxWidths t !! i = Some m -> 1 <= m <= 2 ->
  (exists h, headers t !! i = Some h /\ m < runeCount h) \/
  (exists j row r, rows t !! j = Some row /\ row !! i = Some r /\
                   m < runeCount r) ->
  forall w, snd (printLines t w) = Panicked.
Proof.
  intros R Hm Hr [(h & Hh & Hlt) | (j & row & r & Hj & Hi & Hlt)] w;
    unfold printLines.
  - apply panics_bind.
    apply (forRange_panics _ _ i h); auto.
    + intros. by apply noFail_printHeader.
    + by apply (printHeader_panics t i h m).
  - apply bind_panics; [apply noFail_forRange; intros; by apply noFail_printHeader|].
    intros _ w1. apply bind_panics; [by apply noFail_Write|].
    intros _ w2. apply (forRange_panics _ _ j row); auto.
    + intros. by apply noFail_printRow.
    + intros w3. unfold printRow. apply panics_bind.
      apply (forRange_panics _ _ i r); auto.
      * intros. by apply noFail_printCell.
      * by apply (printCell_panics t j i r m).
Qed.

Lemma Print_panics {W} `{Writer W} t i m :
  Reliable W ->
  maxWidths t !! i = Some m -> 1 <= m <= 2 ->
  (exists h, headers t !! i = Some h /\ m < runeCount h) \/
  (exists j row r, rows t !! j = Some row /\ row !! i = Some r /\
                   m < runeCount r) ->
  forall w, snd (Print (t, w)) = Panicked.
Proof.
  intros R Hm Hr Hover w. rewrite Print_run.
  destruct (_ <=? _)%nat; [|done]. simpl.
  by apply (printLines_panics (clampedTable t) i m).
Qed.

Lemma Reliable_Recorder : Reliable (list string).
Proof. intros b w. by eexists. Qed.

(** ** Strings *)

Lemma length_app_string (a b : string) :
  String.length (a +:+ b) = (String.length a + String.length b)%nat.
Proof. induction a as [|c a IH]; simpl; [done|]. by rewrite <- IH. Qed.

(** ** What a cell is rendered as *)

Lemma truncateTo_done {W} t i s (w w' : W) s' :
  truncateTo t i s w = (w', Done s') -> w' = w /\ s' = shown t i s.
Proof.
  unfold truncateTo, shown, bind, checked, slicePrefix, ret, panic.
  destruct (maxWidths t !! i) as [mw|]; [|done].
  destruct ((0 <? mw) && (mw <? runeCount s)); [|by intros [= <- <-]].
  destruct ((int (mw - 3) <? 0) || (len s <? int (mw - 3))); [done|].
  by intros [= <- <-].
Qed.

Lemma shown_zero t i s : shown t i s = "0" <-> s = "0".
Proof.
  unfold shown. destruct (maxWidths t !! i) as [mw|]; [|done].
  destruct ((0 <? mw) && (mw <? runeCount s)) eqn:C; [|done].
  split.
  - intros E. apply (f_equal String.length) in E.
    rewrite length_app_string in E. simpl in E. lia.
  - intros ->. change (runeCount "0") with 1 in C. lia.
Qed.

Lemma styled_done {W} t j i r0 r (w w' : W) s :
  (r = "0" <-> r0 = "0") ->
  styled t j i r w = (w', Done s) ->
  w' = w /\ s = applyStyle (styleByPrecedence t j i r0) r.
Proof.
  intros Hz. unfold styled, styleByPrecedence, bind, checked, ret, panic.
  destruct (mapGet (formatNotZero t) (Z.of_nat i)) as [f|] eqn:Enz.
  - destruct (bool_decide (r ≠ "0")) eqn:Er.
    + apply bool_decide_eq_true in Er.
      rewrite bool_decide_eq_true_2 by (split; [by eexists | tauto]).
      by intros [= <- <-].
    + apply bool_decide_eq_false in Er.
      rewrite bool_decide_eq_false_2 by tauto.
      destruct (mapGet (formatRow t) (Z.of_nat j)) as [g|].
      * rewrite bool_decide_eq_true_2 by (by eexists). by intros [= <- <-].
      * rewrite bool_decide_eq_false_2 by (by intros [? ?]).
        destruct (format t !! i) as [[h|]|]; simpl; try done;
          by intros [= <- <-].
  - rewrite bool_decide_eq_false_2 by (by intros [[? ?] _]).
    destruct (mapGet (formatRow t) (Z.of_nat j)) as [g|].
    + rewrite bool_decide_eq_true_2 by (by eexists). by intros [= <- <-].
    + rewrite bool_decide_eq_false_2 by (by intros [? ?]).
      destruct (format t !! i) as [[h|]|]; simpl; try done;
        by intros [= <- <-].
Qed.

Lemma printHeader_recorded t i h w w' :
  printHeader t i h w = (w', Done tt) -> w' = w ++ [renderedHeader t i h].
Proof.
  unfold printHeader. intros E.
  apply bind_inv_done in E as (w1 & h' & E1 & E).
  apply truncateTo_done in E1 as [-> ->].
  apply bind_inv_done in E as (w2 & wd & E2 & E).
  unfold checked in E2. destruct (widths t !! i) as [wd'|] eqn:Ew; [|done].
  injection E2 as <- <-. injection E as <-.
  unfold renderedHeader, padFor, applyStyle. by rewrite Ew.
Qed.

Lemma printCell_recorded t j i r w w' :
  printCell t j i r w = (w', Done tt) -> w' = w ++ [renderedCell t j i r].
Proof.
  unfold printCell. intros E.
  apply bind_inv_done in E as (w1 & r' & E1 & E).
  apply truncateTo_done in E1 as [-> ->].
  apply bind_inv_done in E as (w2 & wd & E2 & E).
  unfold checked in E2. destruct (widths t !! i) as [wd'|] eqn:Ew; [|done].
  injection E2 as <- <-.
  apply bind_inv_done in E as (w3 & s & E3 & E).
  apply (styled_done t j i r) in E3 as [-> ->]; [|apply shown_zero].
  injection E as <-.
  unfold renderedCell, padFor. by rewrite Ew.
Qed.

Lemma forRange_recorded {A} (body : nat -> A -> M (list string) unit)
    (g : nat -> A -> list string) l :
  (forall i x w w', body i x w = (w', Done tt) -> w' = w ++ g i x) ->
  forall w w', forRange body l w = (w', Done tt) ->
               w' = w ++ concat (imap g l).
Proof.
  revert body g. induction l as [|x l IH]; intros body g Hb w w' E; simpl in *.
  - injection E as <-. by rewrite app_nil_r.
  - apply bind_inv_done in E as (w1 & [] & E1 & E).
    apply Hb in E1 as ->.
    apply (IH _ (g ∘ S)) in E as ->; [by rewrite app_assoc|].
    intros; by apply Hb.
Qed.

Lemma concat_imap_singleton {A B} (f : nat -> A -> B) l :
  concat (imap (fun i x => [f i x]) l) = imap f l.
Proof.
  revert f. induction l as [|x l IH]; intros f; simpl; [done|].
  f_equal. apply (IH (f ∘ S)).
Qed.

Lemma printRow_recorded t j row w w' :
  printRow t j row w = (w', Done tt) ->
  w' = w ++ imap (renderedCell t j) row ++ [newline].
Proof.
  unfold printRow. intros E.
  apply bind_inv_done in E as (w1 & [] & E1 & E).
  apply (forRange_recorded _ (fun i r => [renderedCell t j i r])) in E1 as ->;
    [|apply printCell_recorded].
  injection E as <-. by rewrite concat_imap_singleton, app_assoc.
Qed.

Lemma printLines_recorded t w w' :
  printLines t w = (w', Done tt) -> w' = w ++ rendering t.
Proof.
  unfold printLines, rendering. intros E.
  apply bind_inv_done in E as (w1 & [] & E1 & E).
  apply (forRange_recorded _ (fun i h => [renderedHeader t i h])) in E1 as ->;
    [|apply printHeader_recorded].
  apply bind_inv_done in E as (w2 & [] & E2 & E).
  injection E2 as <-.
  apply (forRange_recorded _
           (fun j row => imap (renderedCell t j) row ++ [newline])) in E as ->;
    [|apply printRow_recorded].
  rewrite concat_imap_singleton. by rewrite <- !app_assoc.
Qed.

Lemma Print_recorded_done t w t' w' :
  Print (t, w) = ((t', w'), Done tt) ->
  t' = clampedTable t /\ w' = w ++ rendering t'.
Proof.
  rewrite Print_run. destruct (_ <=? _)%nat; [|done].
  destruct (printLines (clampedTable t) w) as [w1 r] eqn:E. simpl.
  intros [= <- <- ->]. split; [done|]. by apply printLines_recorded.
Qed.

(** ** Row ingestion *)

Section Rows.
Context `{Strconv.ShortestDecimal}.

Lemma rowCell_run i v t :
  rowCell i v t =
    match precision t !! i with
    | None => (t, Panicked)
    | Some p =>
        match stringify (effective p) v with
        | None => (t, Panicked)
        | Some s =>
            match widths t !! i with
            | None => (t, Panicked)
            | Some w =>
                (if w <? runeCount s
                 then set_widths (<[i := runeCount s]> (widths t)) t
                 else t, Done s)
            end
        end
    end.
Proof.
  unfold rowCell, bind, get, checked, ret, panic, modify, effective.
  destruct (precision t !! i) as [p|]; [|done].
  destruct (stringify _ v) as [s|]; [|done].
  destruct (widths t !! i) as [w|]; [|done].
  by destruct (w <? runeCount s).
Qed.

(** A cell changes nothing but the widths, and not their number. *)
Lemma rowCell_frame i v t :
  exists ws, fst (rowCell i v t) = set_widths ws t /\
             length ws = length (widths t).
Proof.
  rewrite rowCell_run.
  destruct (precision t !! i) as [p|];
    [|exists (widths t); by rewrite set_widths_same].
  destruct (stringify _ v) as [s|];
    [|exists (widths t); by rewrite set_widths_same].
  destruct (widths t !! i) as [w|];
    [|exists (widths t); by rewrite set_widths_same].
  simpl. destruct (w <? runeCount s).
  - eexists. split; [done|]. by rewrite length_insert.
  - exists (widths t); by rewrite set_widths_same.
Qed.

Lemma rowLoop_frame values : forall i t,
  exists ws, fst (rowLoop i values t) = set_widths ws t /\
             length ws = length (widths t).
Proof.
  induction values as [|v values IH]; intros i t; simpl.
  - exists (widths t). by rewrite set_widths_same.
  - unfold bind. destruct (rowCell_frame i v t) as (ws1 & E1 & L1).
    destruct (rowCell i v t) as [t1 [s| |]]; simpl in E1; subst t1;
      try (by exists ws1).
    destruct (IH (S i) (set_widths ws1 t)) as (ws2 & E2 & L2).
    destruct (rowLoop (S i) values (set_widths ws1 t)) as [t2 [row| |]];
      simpl in *; subst t2; exists ws2; by rewrite L2.
Qed.

Lemma rowLoop_done values : forall i t t' row,
  rowLoop i values t = (t', Done row) ->
  length row = length values /\
  forall k v, values !! k = Some v ->
    exists p s, precision t !! (i + k)%nat = Some p /\
                stringify (effective p) v = Some s /\
                row !! k = Some s.
Proof.
  induction values as [|v values IH]; intros i t t' row E; simpl in E.
  - injection E as <- <-. by split.
  - apply bind_inv_done in E as (t1 & s & E1 & E).
    apply bind_inv_done in E as (t2 & row' & E2 & E).
    injection E as <- <-.
    destruct (rowCell_frame i v t) as (ws1 & F1 & _).
    rewrite E1 in F1. simpl in F1. subst t1.
    apply IH in E2 as [L P]. split; [simpl; by rewrite L|].
    intros [|k] v' Hk; simpl in Hk.
    + injection Hk as <-. rewrite rowCell_run in E1.
      rewrite Nat.add_0_r.
      destruct (precision t !! i) as [p|]; [|done].
      destruct (stringify _ v) as [s'|] eqn:Es; [|done].
      destruct (widths t !! i) as [w|]; [|done].
      injection E1 as _ <-. by exists p, s'.
    + destruct (P k v' Hk) as (p & s' & Hp & Hs & Hr).
      exists p, s'. by rewrite Nat.add_succ_r.
Qed.

Lemma kept_length t values :
  0 <= columns t -> Z.of_nat (length (kept t values)) <= columns t.
Proof.
  intros Hc. unfold kept. destruct (_ <? _) eqn:C; [|lia].
  rewrite length_take. lia.
Qed.

Lemma Row_run t values :
  0 <= columns t ->
  Row values t =
    match rowLoop 0 (kept t values) t with
    | (t1, Done row) => (set_rows (rows t1 ++ [row]) t1, Done tt)
    | (t1, Failed e) => (t1, Failed e)
    | (t1, Panicked) => (t1, Panicked)
    end.
Proof.
  intros Hc. unfold Row, kept, bind, get, checked, sliceList, modify, ret.
  replace (columns t <? 0) with false by lia.
  destruct (columns t <? Z.of_nat (length values));
    by destruct (rowLoop 0 _ t) as [t1 [row| |]].
Qed.

Lemma Row_done t values t' :
  0 <= columns t ->
  Row values t = (t', Done tt) ->
  exists ws row,
    t' = set_rows (rows t ++ [row]) (set_widths ws t) /\
    length ws = length (widths t) /\
    length row = length (kept t values) /\
    forall k v, kept t values !! k = Some v ->
      exists p s, precision t !! k = Some p /\
                  stringify (effective p) v = Some s /\
                  row !! k = Some s.
Proof.
  intros Hc. rewrite Row_run by done.
  destruct (rowLoop_frame (kept t values) 0 t) as (ws & F & L).
  destruct (rowLoop 0 (kept t values) t) as [t1 [row| |]] eqn:E; try done.
  simpl in F. subst t1. intros [= <-].
  apply rowLoop_done in E as [Lr P]. by exists ws, row.
Qed.

Lemma Row_drops_overflow t values :
  0 <= columns t ->
  Row values t = Row (take (Z.to_nat (columns t)) values) t.
Proof.
  intros Hc. rewrite !Row_run by done. f_equal. f_equal. unfold kept.
  destruct (columns t <? Z.of_nat (length values)) eqn:C.
  - rewrite length_take.
    apply Z.ltb_lt in C. by rewrite (proj2 (Z.ltb_ge _ _)) by lia.
  - rewrite take_ge by lia. by rewrite C.
Qed.

Lemma noFail_Row values : noFail (Row values).
Proof.
  unfold Row. noFail.
  match goal with |- noFail (rowLoop ?i ?l) => generalize i; induction l end;
    intros; simpl; noFail; auto.
Qed.

End Rows.

(** ** What every method keeps *)

Lemma preserves_ret {St A} (P : St -> Prop) (a : A) : preserves P (ret a).
Proof. by intros s. Qed.

Lemma preserves_panic {St A} (P : St -> Prop) : preserves P (@panic St A).
Proof. by intros s. Qed.

Lemma preserves_checked {St A} (P : St -> Prop) (o : option A) :
  preserves P (checked o).
Proof. by destruct o; intros s. Qed.

Lemma preserves_bind {St A B} (P : St -> Prop) (m : M St A) (k : A -> M St B) :
  preserves P m -> (forall a, preserves P (k a)) -> preserves P (bind m k).
Proof.
  intros Hm Hk s Hs. unfold bind. specialize (Hm s Hs).
  destruct (m s) as [s1 [a|e|]]; simpl in *; try done. by apply Hk.
Qed.

Lemma preserves_forRange {St A} (P : St -> Prop)
    (body : nat -> A -> M St unit) l :
  (forall i x, preserves P (body i x)) -> preserves P (forRange body l).
Proof.
  revert body. induction l as [|x l IH]; intros body Hb; simpl.
  - apply preserves_ret.
  - apply preserves_bind; [apply Hb|]. intros _. apply IH. intros; apply Hb.
Qed.

Lemma store_length {A} (l l' : list A) i x :
  store l i x = Some l' -> length l' = length l.
Proof.
  unfold store. destruct (_ || _); [done|]. intros [= <-].
  apply length_insert.
Qed.

Lemma headerWidths_length hs : forall i dst,
  length (headerWidths i hs dst) = length dst.
Proof.
  induction hs as [|h hs IH]; intros i dst; simpl; [done|].
  by rewrite IH, length_insert.
Qed.

Lemma wf_New d hs : wf (New d hs).
Proof.
  split; simpl; rewrite ?headerWidths_length, ?length_replicate; auto.
Qed.

Lemma wf_set_widths ws t :
  length ws = length (widths t) -> wf t -> wf (set_widths ws t).
Proof. intros L []. split; simpl; congruence. Qed.

Lemma wf_set_rows rws t :
  Forall (fun row => Z.of_nat (length row) <= columns t) rws ->
  wf t -> wf (set_rows rws t).
Proof. intros L []. by split. Qed.

Lemma wf_columns_nonneg t : wf t -> 0 <= columns t.
Proof. intros []. lia. Qed.

Lemma preserves_FormatHeader fn : preserves wf (FormatHeader fn).
Proof. intros t []. by split. Qed.

Lemma preserves_Padding p : preserves wf (Padding p).
Proof. intros t []. by split. Qed.

Lemma preserves_MaxWidth chars cols : preserves wf (MaxWidth chars cols).
Proof.
  apply preserves_forRange. intros _ col t Ht.
  unfold bind, get, checked, modify, ret, panic.
  destruct (inColumns t col); [|done].
  destruct (store (maxWidths t) col chars) as [l|] eqn:E; [|done].
  apply store_length in E. destruct Ht. split; simpl; congruence.
Qed.

Lemma preserves_Precision digits cols : preserves wf (Precision digits cols).
Proof.
  apply preserves_forRange. intros _ col t Ht.
  unfold bind, get, checked, modify, ret, panic.
  destruct (inColumns t col); [|done].
  destruct (store (precision t) col digits) as [l|] eqn:E; [|done].
  apply store_length in E. destruct Ht. split; simpl; congruence.
Qed.

Lemma preserves_FormatRows fn rws : preserves wf (FormatRows fn rws).
Proof.
  apply preserves_forRange. intros _ row t Ht.
  unfold bind, get, modify. simpl. destruct Ht. by split.
Qed.

Lemma preserves_FormatCols fn cols : preserves wf (FormatCols fn cols).
Proof.
  apply preserves_forRange. intros _ col t Ht.
  unfold bind, get, checked, modify, ret, panic.
  destruct (inColumns t col); [|done].
  destruct (store (format t) col fn) as [l|] eqn:E; [|done].
  apply store_length in E. destruct Ht. split; simpl; congruence.
Qed.

Lemma preserves_FormatNotZero fn cols : preserves wf (FormatNotZero fn cols).
Proof.
  apply preserves_forRange. intros _ col t Ht.
  unfold bind, get, modify, ret.
  destruct (inColumns t col); [|done]. simpl. destruct Ht. by split.
Qed.

Lemma index_Some {A} (l : list A) i x :
  index l i = Some x -> 0 <= i /\ l !! Z.to_nat i = Some x.
Proof. unfold index. destruct (i <? 0) eqn:C; [done|]. intros. split; [lia|done]. Qed.

Lemma store_Some {A} (l l' : list A) i x :
  store l i x = Some l' -> l' = <[Z.to_nat i := x]> l.
Proof. unfold store. destruct (_ || _); [done|]. by intros [= <-]. Qed.

Lemma preserves_Less i j : preserves wf (Less i j).
Proof.
  intros t Ht. unfold Less, bind, get, checked, ret, panic.
  by destruct (lessLoop _ _ _ _ _).
Qed.

Lemma preserves_Swap i j : preserves wf (Swap i j).
Proof.
  intros t Ht. unfold Swap, bind, get, checked, modify, ret, panic.
  destruct (index (rows t) j) as [rj|] eqn:Ej; [|done].
  destruct (index (rows t) i) as [ri|] eqn:Ei; [|done].
  destruct (store (rows t) i rj) as [l1|] eqn:E1; [|done].
  destruct (store l1 j ri) as [l2|] eqn:E2; [|done].
  simpl. apply wf_set_rows; [|done].
  apply store_Some in E1 as ->. apply store_Some in E2 as ->.
  apply index_Some in Ej as [_ Ej]. apply index_Some in Ei as [_ Ei].
  pose proof (wf_rows t Ht) as Hr.
  apply Forall_insert; [apply Forall_insert; [done|]|].
  - by apply (Forall_lookup_1 _ _ _ _ Hr Ej).
  - by apply (Forall_lookup_1 _ _ _ _ Hr Ei).
Qed.

Lemma preserves_insertionInner {St} `{GoSort.Interface St} (P : St -> Prop) j :
  (forall a b, preserves P (GoSort.Less a b)) ->
  (forall a b, preserves P (GoSort.Swap a b)) ->
  preserves P (GoSort.insertionInner j).
Proof.
  intros HL HS. induction j as [|j IH]; simpl.
  - apply preserves_ret.
  - apply preserves_bind; [apply HL|]. intros [].
    + apply preserves_bind; [apply HS|]. by intros _.
    + apply preserves_ret.
Qed.

Lemma preserves_GoSort {St} `{GoSort.Interface St} (P : St -> Prop) :
  preserves P GoSort.Len ->
  (forall a b, preserves P (GoSort.Less a b)) ->
  (forall a b, preserves P (GoSort.Swap a b)) ->
  preserves P GoSort.Sort.
Proof.
  intros HN HL HS. unfold GoSort.Sort.
  apply preserves_bind; [done|]. intros n.
  destruct (n <=? 1); [apply preserves_ret|].
  apply preserves_forRange. intros. by apply preserves_insertionInner.
Qed.

Lemma preserves_Sort cols : preserves wf (Sort cols).
Proof.
  unfold Sort. apply preserves_bind.
  - intros t []. by split.
  - intros _. apply preserves_GoSort.
    + by intros t.
    + apply preserves_Less.
    + apply preserves_Swap.
Qed.

Section RowsKeep.
Context `{Strconv.ShortestDecimal}.

Lemma preserves_Row values : preserves wf (Row values).
Proof.
  intros t Ht. pose proof (wf_columns_nonneg t Ht) as Hc.
  rewrite Row_run by done.
  destruct (rowLoop_frame (kept t values) 0 t) as (ws & F & L).
  destruct (rowLoop 0 (kept t values) t) as [t1 [row| |]] eqn:E;
    simpl in *; subst t1; try by apply wf_set_widths.
  apply rowLoop_done in E as [Lr _].
  apply wf_set_rows; [|by apply wf_set_widths].
  simpl. apply Forall_app. split; [apply (wf_rows t Ht)|].
  apply Forall_singleton. rewrite Lr. by apply kept_length.
Qed.

Lemma preserves_AddStruct m : preserves wf (AddStruct m).
Proof.
  destruct m as [| |fields]; simpl;
    [apply preserves_panic | apply preserves_ret |].
  apply preserves_forRange. intros _ fld.
  apply preserves_bind; [apply preserves_checked|].
  intros v. apply preserves_Row.
Qed.

Lemma wf_clampedTable t : wf t -> wf (clampedTable t).
Proof. intros Ht. apply wf_set_widths; [apply clamped_length | done]. Qed.

Lemma wf_exec c t : wf t -> wf (exec c t).
Proof.
  intros Ht. destruct c; simpl.
  - by apply preserves_AddStruct.
  - by apply preserves_FormatHeader.
  - by apply preserves_Padding.
  - by apply preserves_MaxWidth.
  - by apply preserves_Precision.
  - by apply preserves_FormatRows.
  - by apply preserves_FormatCols.
  - by apply preserves_FormatNotZero.
  - by apply preserves_Swap.
  - by apply preserves_Sort.
  - by apply preserves_Row.
  - rewrite Print_table. by apply wf_clampedTable.
Qed.

Lemma reachable_wf t : reachable t -> wf t.
Proof. induction 1; [apply wf_New | by apply wf_exec]. Qed.

End RowsKeep.

(** ** [strings.Compare] *)



Lemma Compare_antisym a : forall b,
  Strings.Compare b a = - Strings.Compare a b.
Proof.
  induction a as [|x a IH]; intros [|y b]; simpl; try done.
  destruct (byteVal x <? byteVal y) eqn:C1, (byteVal y <? byteVal x) eqn:C2;
    simpl; try lia. apply IH.
Qed.




(** ** Comparing two rows *)



Lemma lessRows_nil ri rj : lessRows [] ri rj = false.
Proof. done. Qed.






(** ** The sort *)

Lemma set_rows_same t : set_rows (rows t) t = t.
Proof. by destruct t. Qed.



















(** ** Decimal digits *)

Lemma append_cons c a b : String c a +:+ b = String c (a +:+ b).
Proof. done. Qed.

Lemma append_nil b : EmptyString +:+ b = b.
Proof. done. Qed.














Section Floats.
Context `{Strconv.ShortestDecimal}.

End Floats.

(** ** What decimal text denotes *)











Section FloatDigits.
Context `{Strconv.ShortestDecimal}.

End FloatDigits.

(** ** Further facts about rows and text *)

Section RowClaims.
Context `{Strconv.ShortestDecimal}.





End RowClaims.




(** ** Text of one-byte code points *)

Lemma countFrom_ascii s : isAscii s = true -> Utf8.countFrom 0 s = String.length s.
Proof.
  induction s as [|c s IH]; simpl; [done|]. intros Ha.
  apply andb_prop in Ha as [Hc Hs]. apply Z.ltb_lt in Hc.
  unfold Utf8.decodeWidth.
  rewrite (proj2 (Z.leb_gt 192 (byteVal c))) by lia.
  rewrite (proj2 (Z.leb_gt 224 (byteVal c))) by lia.
  rewrite (proj2 (Z.leb_gt 240 (byteVal c))) by lia.
  simpl. by rewrite IH.
Qed.

Lemma runeCount_ascii s : isAscii s = true -> runeCount s = len s.
Proof. intros Ha. unfold runeCount, len. by rewrite countFrom_ascii. Qed.

Lemma isAscii_app a b : isAscii (a +:+ b) = isAscii a && isAscii b.
Proof.
  induction a as [|c a IH]; [done|].
  rewrite append_cons. simpl. by rewrite IH, andb_assoc.
Qed.

Lemma isAscii_sliceTo n : forall s, isAscii s = true -> isAscii (sliceTo n s) = true.
Proof.
  induction n as [|n IH]; intros [|c s]; simpl; try done.
  intros Ha. apply andb_prop in Ha as [-> Hs]. by apply IH.
Qed.

Lemma sliceTo_length n : forall s,
  (n <= String.length s)%nat -> String.length (sliceTo n s) = n.
Proof.
  induction n as [|n IH]; intros [|c s]; simpl; try done; try lia.
  intros Hn. rewrite IH; lia.
Qed.

(** What the specification says of truncation holds of text made of
    one-byte code points under a cap of at least 3: it is rendered as its
    first [cap - 3] code points and three dots, [cap] code points in all. *)
Lemma truncation_of_ascii t i s cap :
  maxWidths t !! i = Some cap -> 3 <= cap < 2 ^ 63 ->
  isAscii s = true -> cap < runeCount s ->
  shown t i s = sliceTo (Z.to_nat (cap - 3)) s +:+ "..." /\
  runeCount (sliceTo (Z.to_nat (cap - 3)) s) = cap - 3 /\
  runeCount (shown t i s) = cap.
Proof.
  intros Hm Hcap Ha Hlt. unfold shown. rewrite Hm.
  rewrite (proj2 (Z.ltb_lt 0 cap)) by lia.
  rewrite (proj2 (Z.ltb_lt cap (runeCount s))) by lia. simpl.
  assert (int (cap - 3) = cap - 3) as ->.
  { unfold int, wrap. rewrite Z.mod_small; lia. }
  rewrite runeCount_ascii in Hlt by done. unfold len in Hlt.
  assert (Hl : String.length (sliceTo (Z.to_nat (cap - 3)) s) = Z.to_nat (cap - 3))
    by (apply sliceTo_length; lia).
  split; [done|]. split.
  - rewrite runeCount_ascii by (by apply isAscii_sliceTo). unfold len. lia.
  - rewrite runeCount_ascii
      by (rewrite isAscii_app, isAscii_sliceTo by done; done).
    unfold len. rewrite length_app_string, Hl. simpl. lia.
Qed.

(** * The claims of the specification *)

(** C1 (the code departs from it): under a cap of 5, a header and a cell of
    six code points should each be rendered as their first two code points
    and three dots, five code points in all. [Print] cuts after two bytes
    instead, which is one code point here: the rendered text has four code
    points. *)
Theorem truncation_cuts_bytes :
  runeCount accented = 6 /\
  maxWidths accentedTable = [5] /\
  headers accentedTable = [accented] /\
  rows accentedTable = [[accented]] /\
  snd (Print (accentedTable, [])) = Done tt /\
  snd (fst (Print (accentedTable, []))) = ["é..."; newline; "é..."; newline] /\
  runeCount "é..." = 4.
Proof. repeat split; reflexivity. Qed.

(** C2, counterexample: the table has a tracked width of 6 before [Print]
    and of 4 after it, although [Print] returns normally. *)
Lemma Print_lowers_tracked_width :
  widths cappedTable = [6] /\
  snd (Print (cappedTable, ([] : list string))) = Done tt /\
  widths (fst (fst (Print (cappedTable, ([] : list string))))) = [4] /\
  fst (fst (Print (cappedTable, ([] : list string)))) <> cappedTable.
Proof.
  repeat split; try reflexivity.
  intros E. apply (f_equal widths) in E. discriminate E.
Qed.

(** C2, amended: [Print] leaves the column count, headers, rows, max widths,
    precision, padding, styles and sort keys as they were, and overwrites
    the tracked width of each column whose positive max width is below it
    with that max width; this holds however [Print] ends and whatever the
    sink does. *)
Theorem Print_changes_only_clamped_widths {W} `{Writer W} (t : Table) (w : W) :
  let t' := fst (fst (Print (t, w))) in
  t' = set_widths (clamped (widths t) (maxWidths t)) t /\
  columns t' = columns t /\ headers t' = headers t /\ rows t' = rows t /\
  maxWidths t' = maxWidths t /\ precision t' = precision t /\
  padding t' = padding t /\ format t' = format t /\
  formatHeader t' = formatHeader t /\ formatRow t' = formatRow t /\
  formatNotZero t' = formatNotZero t /\ sortBy t' = sortBy t.
Proof. simpl. rewrite Print_table. by repeat split. Qed.

(** C3 (the code departs from it): [Row] should complete and append a row
    when a value is a nil pointer to a string or to a byte slice. It
    dereferences the pointer instead: the call panics and no row is
    appended. *)
Theorem Row_panics_on_nil_pointer :
  let t := New None ["key"; "value"] in
  snd (Row (H := noShortest) [VString "a"; VStringPtr None] t) = Panicked /\
  rows (fst (Row (H := noShortest) [VString "a"; VStringPtr None] t)) = [] /\
  snd (Row (H := noShortest) [VString "a"; VBytesPtr None] t) = Panicked /\
  rows (fst (Row (H := noShortest) [VString "a"; VBytesPtr None] t)) = [] /\
  snd (Row (H := noShortest) [VString "a"; VNil] t) = Done tt.
Proof. repeat split; reflexivity. Qed.

(** C4: two calls of [Print] in a row, nothing changing the table in
    between, hand the sink the same chunks, hence the same bytes, and end
    the same way; and on any sink at all, the second call behaves as the
    first would have from the same state of the sink. *)
Theorem Print_twice_same_output (t : Table) (w0 : list string) :
  (exists t1 out r,
     Print (t, w0) = ((t1, w0 ++ out), r) /\
     Print (t1, w0 ++ out) = ((t1, (w0 ++ out) ++ out), r)) /\
  (forall W (writer : Writer W) (w w' : W),
     Print (fst (fst (Print (t, w'))), w) = Print (t, w)).
Proof.
  split.
  - exists (clampedTable t), (snd (fst (Print (t, [])))), (snd (Print (t, []))).
    split; [apply Print_recorded|].
    rewrite (Print_recorded (clampedTable t)), clampedTable_idem.
    rewrite <- (Print_table t []), Print_again. done.
  - intros. apply Print_again.
Qed.



(** C6: when [Print] returns normally, what it has written is the header
    line and then, for each row in order, one chunk per cell and a newline,
    where the chunk of a cell is its text under the cap of its column, with
    the one style [styleByPrecedence] selects for it applied, and padded:
    the non-zero style of the column when there is one and the cell's text
    is not "0", else the style of the row, else the style of the column,
    else none. *)
Theorem Print_styles_by_precedence (t t' : Table) (w w' : list string) :
  Print (t, w) = ((t', w'), Done tt) ->
  w' = w ++ imap (renderedHeader t') (headers t') ++ [newline] ++
       concat (imap (fun j row =>
                 imap (fun i r =>
                   padded t' i
                     (applyStyle (styleByPrecedence t' j i r) (shown t' i r))
                     (padFor t' i (shown t' i r))) row ++ [newline])
               (rows t')).
Proof. intros E. by apply Print_recorded_done in E as [_ ->]. Qed.

(** The cell 7 gets the non-zero style alone, the first 0 the row style,
    the second 0 the column style. *)
Lemma Print_styles_by_precedence_witness :
  Print (styledTable, []) =
    ((styledTable, ["n"; newline; "N7"; newline; "R0"; newline; "C0"; newline]),
     Done tt) /\
  ["n"; newline; "N7"; newline; "R0"; newline; "C0"; newline] =
    [] ++ imap (renderedHeader styledTable) (headers styledTable) ++ [newline] ++
    concat (imap (fun j row =>
              imap (fun i r =>
                padded styledTable i
                  (applyStyle (styleByPrecedence styledTable j i r)
                     (shown styledTable i r))
                  (padFor styledTable i (shown styledTable i r))) row
              ++ [newline])
            (rows styledTable)).
Proof.
  assert (E : Print (styledTable, []) =
    ((styledTable, ["n"; newline; "N7"; newline; "R0"; newline; "C0"; newline]),
     Done tt)) by reflexivity.
  split; [exact E|].
  exact (Print_styles_by_precedence styledTable styledTable [] _ E).
Defined.




(** C8: in every table a program can reach, no stored row is longer than
    the column count; [Row] on such a table does exactly what it does on the
    values within the column count alone, so the values beyond it are
    dropped; and [Row] never ends with an error. *)
Theorem rows_within_columns `{Strconv.ShortestDecimal} (t : Table) :
  reachable t ->
  Forall (fun row => Z.of_nat (length row) <= columns t) (rows t) /\
  (forall values,
     Row values t = Row (take (Z.to_nat (columns t)) values) t) /\
  (forall values e, snd (Row values t) <> Failed e).
Proof.
  intros Hr. apply reachable_wf in Hr. split; [apply (wf_rows t Hr)|]. split.
  - intros values. apply Row_drops_overflow. by apply wf_columns_nonneg.
  - intros values e E. pose proof (noFail_Row values t) as N. by rewrite E in N.
Qed.

(** Three values into two columns: the third is dropped. *)
Lemma rows_within_columns_witness :
  reachable (H := noShortest) (New None ["a"; "b"]) /\
  rows (fst (Row (H := noShortest) [VInt 1; VInt 2; VInt 3] (New None ["a"; "b"])))
    = [["1"; "2"]] /\
  Forall (fun row => Z.of_nat (length row) <= columns (New None ["a"; "b"]))
    (rows (New None ["a"; "b"])) /\
  (forall values,
     Row (H := noShortest) values (New None ["a"; "b"]) =
     Row (H := noShortest)
       (take (Z.to_nat (columns (New None ["a"; "b"]))) values)
       (New None ["a"; "b"])) /\
  (forall values e,
     snd (Row (H := noShortest) values (New None ["a"; "b"])) <> Failed e).
Proof.
  split; [apply reachable_New|]. split; [reflexivity|].
  apply (rows_within_columns (H := noShortest) (New None ["a"; "b"])).
  apply reachable_New.
Defined.

(** C9: on a sink that accepts every write, [Print] panics whenever some
    column has a max width of 1 or 2 and its header, or one of its cells,
    has more code points than that. *)
Theorem Print_panics_under_small_cap {W} `{Writer W}
    (t : Table) (i : nat) (m : Z) (w : W) :
  Reliable W ->
  maxWidths t !! i = Some m -> 1 <= m <= 2 ->
  (exists h, headers t !! i = Some h /\ m < runeCount h) \/
  (exists j row r, rows t !! j = Some row /\ row !! i = Some r /\
                   m < runeCount r) ->
  snd (Print (t, w)) = Panicked.
Proof. intros R Hm Hr Hover. by apply (Print_panics t i m). Qed.

(** The table [New("abc")], [MaxWidth(2, 0)] can be reached, and [Print]
    panics on it. *)
Lemma Print_panics_under_small_cap_witness :
  reachable (H := noShortest) tightTable /\
  snd (Print (tightTable, ([] : list string))) = Panicked.
Proof.
  split.
  - apply (reachable_call (H := noShortest) (CMaxWidth 2 [0])).
    apply reachable_New.
  - apply (Print_panics_under_small_cap tightTable 0 2 []).
    + apply Reliable_Recorder.
    + reflexivity.
    + lia.
    + left. exists "abc". split; [reflexivity | reflexivity].
Defined.



(** * Further properties of the code *)

(** ** Code points of a concatenation *)

Lemma decodeWidth_le c rest :
  (Utf8.decodeWidth c rest <= S (String.length rest))%nat.
Proof.
  unfold Utf8.decodeWidth.
  repeat match goal with
         | |- context [if ?b then _ else _] => destruct b
         | |- context [match ?s with EmptyString => _ | String _ _ => _ end] =>
             destruct s
         end; simpl; lia.
Qed.

Lemma decodeWidth_app c rest t :
  plainStart t -> Utf8.decodeWidth c (rest +:+ t) = Utf8.decodeWidth c rest.
Proof.
  intros Ht. unfold Utf8.decodeWidth.
  destruct ((192 <=? byteVal c) && (byteVal c <? 224)).
  { destruct rest as [|c1 rest]; [|done]. rewrite append_nil.
    destruct t as [|x t]; [done|]. simpl in Ht. by rewrite Ht. }
  destruct ((224 <=? byteVal c) && (byteVal c <? 240)).
  { destruct rest as [|c1 [|c2 rest]]; [| |done].
    - rewrite append_nil. destruct t as [|x [|y t]]; try done.
      simpl in Ht. by rewrite Ht.
    - rewrite append_cons, append_nil. destruct t as [|x t]; [done|].
      simpl in Ht. by rewrite Ht, andb_false_r. }
  destruct ((240 <=? byteVal c) && (byteVal c <? 248)); [|done].
  destruct rest as [|c1 [|c2 [|c3 rest]]]; [| | |done].
  - rewrite append_nil. destruct t as [|x [|y [|z t]]]; try done.
    simpl in Ht. by rewrite Ht.
  - rewrite append_cons, append_nil. destruct t as [|x [|y t]]; try done.
    simpl in Ht. by rewrite Ht, andb_false_r.
  - rewrite !append_cons, append_nil. destruct t as [|x t]; [done|].
    simpl in Ht. by rewrite Ht, andb_false_r.
Qed.

Lemma append_nil_r s : s +:+ EmptyString = s.
Proof. induction s as [|c s IH]; [done|]. by rewrite append_cons, IH. Qed.

Lemma append_assoc a b c : (a +:+ b) +:+ c = a +:+ b +:+ c.
Proof. induction a as [|x a IH]; [done|]. by rewrite !append_cons, IH. Qed.

Lemma countFrom_app s : forall k t,
  (k <= String.length s)%nat -> plainStart t ->
  Utf8.countFrom k (s +:+ t) = (Utf8.countFrom k s + Utf8.countFrom 0 t)%nat.
Proof.
  induction s as [|c s IH]; intros k t Hk Ht.
  - simpl in Hk. by replace k with 0%nat by lia.
  - rewrite append_cons. destruct k as [|k]; simpl.
    + rewrite decodeWidth_app by done. f_equal. apply IH; [|done].
      pose proof (decodeWidth_le c s). lia.
    + apply IH; [simpl in Hk; lia | done].
Qed.

(** Code points add up over a concatenation whose second part does not
    begin in the middle of a code point. *)
Lemma runeCount_app s t :
  plainStart t -> runeCount (s +:+ t) = runeCount s + runeCount t.
Proof.
  intros Ht. unfold runeCount. rewrite countFrom_app by (done || lia). lia.
Qed.

Lemma countFrom_le s : forall k, (Utf8.countFrom k s <= String.length s)%nat.
Proof.
  induction s as [|c s IH]; intros k; simpl; [lia|].
  destruct k; [specialize (IH (Utf8.decodeWidth c s - 1)%nat) | specialize (IH k)];
    lia.
Qed.

Lemma runeCount_le_len s : runeCount s <= len s.
Proof. unfold runeCount, len. pose proof (countFrom_le s 0). lia. Qed.

Lemma runeCount_nonneg s : 0 <= runeCount s.
Proof. unfold runeCount. lia. Qed.

Lemma isAscii_spaces n : isAscii (spaces n) = true.
Proof. induction n; simpl; auto. Qed.

Lemma length_spaces n : String.length (spaces n) = n.
Proof. induction n; simpl; auto. Qed.

Lemma runeCount_spaces n : runeCount (spaces n) = Z.of_nat n.
Proof.
  rewrite runeCount_ascii by apply isAscii_spaces. unfold len.
  by rewrite length_spaces.
Qed.

Lemma plainStart_spaces n : plainStart (spaces n).
Proof. by destruct n. Qed.

Lemma appendWhitespaceLoop_spaces n : forall b,
  appendWhitespaceLoop n b = b +:+ spaces n.
Proof.
  induction n as [|n IH]; intros b; simpl.
  - by rewrite append_nil_r.
  - rewrite IH, append_assoc. done.
Qed.

(** [appendWhitespace] adds [count] spaces, none when [count] is negative. *)
Lemma appendWhitespace_spaces b count :
  appendWhitespace b count = b +:+ spaces (Z.to_nat count).
Proof. apply appendWhitespaceLoop_spaces. Qed.

(** ** When [Print] returns normally *)

Lemma int_small x : - 2 ^ 63 <= x < 2 ^ 63 -> int x = x.
Proof. intros Hx. unfold int, wrap. rewrite Z.mod_small; lia. Qed.

Lemma truncateTo_ok {W} t i s mw (w : W) :
  maxWidths t !! i = Some mw -> capOk mw ->
  truncateTo t i s w = (w, Done (shown t i s)).
Proof.
  intros Hm Hc. unfold truncateTo, shown, bind, checked, ret, slicePrefix.
  rewrite Hm. destruct ((0 <? mw) && (mw <? runeCount s)) eqn:C; [|done].
  apply andb_prop in C as [C1 C2]. apply Z.ltb_lt in C1, C2.
  destruct Hc as [Hc|Hc]; [lia|].
  rewrite int_small by lia.
  pose proof (runeCount_le_len s).
  rewrite (proj2 (Z.ltb_ge (mw - 3) 0)) by lia.
  by rewrite (proj2 (Z.ltb_ge (len s) (mw - 3))) by lia.
Qed.

Lemma forRange_ok {St A} (body : nat -> A -> M St unit) l :
  (forall i x, l !! i = Some x -> forall s, exists s', body i x s = (s', Done tt)) ->
  forall s, exists s', forRange body l s = (s', Done tt).
Proof.
  revert body. induction l as [|x l IH]; intros body Hb s; simpl.
  - by eexists.
  - unfold bind. destruct (Hb 0%nat x eq_refl s) as [s1 ->].
    apply IH. intros i y Hi. by apply (Hb (S i)).
Qed.

Lemma printHeader_ok {W} `{Writer W} t i h mw :
  Reliable W -> maxWidths t !! i = Some mw -> capOk mw ->
  is_Some (widths t !! i) ->
  forall w, exists w', printHeader t i h w = (w', Done tt).
Proof.
  intros R Hm Hc [wd Hw] w. unfold printHeader, bind.
  rewrite (truncateTo_ok t i h mw) by done.
  unfold checked. rewrite Hw. unfold ret. apply R.
Qed.

Lemma styled_ok {W} t j i r (w : W) :
  is_Some (format t !! i) ->
  styled t j i r w = (w, Done (applyStyle (styleByPrecedence t j i r) r)).
Proof.
  intros [fc Hf].
  destruct (styled t j i r w) as [w' [s| |]] eqn:E.
  - by apply (styled_done t j i r r) in E as [-> ->].
  - exfalso. revert E. unfold styled, bind, checked, ret.
    destruct (mapGet (formatNotZero t) (Z.of_nat i)), (bool_decide (r <> "0")),
      (mapGet (formatRow t) (Z.of_nat j)); try done;
      unfold FormatFunc in *; rewrite Hf; by destruct fc.
  - exfalso. revert E. unfold styled, bind, checked, ret.
    destruct (mapGet (formatNotZero t) (Z.of_nat i)), (bool_decide (r <> "0")),
      (mapGet (formatRow t) (Z.of_nat j)); try done;
      unfold FormatFunc in *; rewrite Hf; by destruct fc.
Qed.

Lemma printCell_ok {W} `{Writer W} t j i r mw :
  Reliable W -> maxWidths t !! i = Some mw -> capOk mw ->
  is_Some (widths t !! i) -> is_Some (format t !! i) ->
  forall w, exists w', printCell t j i r w = (w', Done tt).
Proof.
  intros R Hm Hc [wd Hw] Hf w. unfold printCell, bind.
  rewrite (truncateTo_ok t i r mw) by done.
  unfold checked. rewrite Hw. unfold ret at 1.
  rewrite styled_ok by done. apply R.
Qed.

Lemma wf_lookups t i :
  wf t -> (i < length (headers t))%nat ->
  is_Some (maxWidths t !! i) /\ is_Some (widths t !! i) /\
  is_Some (format t !! i) /\ is_Some (precision t !! i).
Proof.
  intros [] Hi. repeat split; apply lookup_lt_is_Some; lia.
Qed.

Lemma printLines_ok {W} `{Writer W} t :
  Reliable W -> wf t -> Forall capOk (maxWidths t) ->
  forall w, exists w', printLines t w = (w', Done tt).
Proof.
  intros R Ht Hc w. unfold printLines, bind.
  destruct (forRange_ok (printHeader t) (headers t)) with (s := w) as [w1 ->].
  { intros i h Hi. apply lookup_lt_Some in Hi.
    destruct (wf_lookups t i Ht Hi) as ([mw Hm] & Hw & _).
    apply (printHeader_ok t i h mw); try done.
    by apply (Forall_lookup_1 _ _ _ _ Hc Hm). }
  destruct (R newline w1) as [w2 ->].
  apply forRange_ok. intros j row Hj w3. unfold printRow, bind.
  destruct (forRange_ok (printCell t j) row) with (s := w3) as [w4 ->];
    [|apply R].
  intros i r Hi. apply lookup_lt_Some in Hi.
  pose proof (Forall_lookup_1 _ _ _ _ (wf_rows t Ht) Hj) as Hlen. simpl in Hlen.
  rewrite (wf_columns t Ht) in Hlen.
  destruct (wf_lookups t i Ht ltac:(lia)) as ([mw Hm] & Hw & Hf & _).
  apply (printCell_ok t j i r mw); try done.
  by apply (Forall_lookup_1 _ _ _ _ Hc Hm).
Qed.

Lemma Print_ok {W} `{Writer W} t (w : W) :
  Reliable W -> wf t -> Forall capOk (maxWidths t) ->
  exists w', Print (t, w) = ((clampedTable t, w'), Done tt).
Proof.
  intros R Ht Hc. rewrite Print_run.
  rewrite (proj2 (Nat.leb_le _ _))
    by (rewrite (wf_widths t Ht), (wf_maxWidths t Ht); lia).
  destruct (printLines_ok (clampedTable t) R (wf_clampedTable t Ht) Hc w)
    as [w' E].
  exists w'. by rewrite E.
Qed.

(** On a sink that refuses every write, [Print] stops at the first one. *)
Lemma printLines_failing e t n :
  wf t -> Forall capOk (maxWidths t) ->
  @printLines nat (failing e) t n = (S n, Failed e).
Proof.
  intros Ht Hc. unfold printLines, bind.
  destruct (headers t) as [|h hs] eqn:Eh; [done|].
  cbn [forRange]. unfold bind.
  assert (Hi : (0 < length (headers t))%nat) by (rewrite Eh; simpl; lia).
  destruct (wf_lookups t 0 Ht Hi) as ([mw Hm] & [wd Hw] & _).
  unfold printHeader, bind.
  rewrite (truncateTo_ok t 0 h mw)
    by (done || by apply (Forall_lookup_1 _ _ _ _ Hc Hm)).
  unfold checked. by rewrite Hw.
Qed.

Lemma shown_uncapped t i s mw :
  maxWidths t !! i = Some mw -> mw <= 0 \/ runeCount s <= mw ->
  shown t i s = s.
Proof.
  intros Hm Hc. unfold shown. rewrite Hm.
  destruct ((0 <? mw) && (mw <? runeCount s)) eqn:C; [|done].
  apply andb_prop in C as [C1 C2]. lia.
Qed.

Lemma truncateTo_uncapped {W} t i s mw (w : W) :
  maxWidths t !! i = Some mw -> mw <= 0 \/ runeCount s <= mw ->
  truncateTo t i s w = (w, Done s).
Proof.
  intros Hm Hc. unfold truncateTo, bind, checked, ret. rewrite Hm.
  destruct ((0 <? mw) && (mw <? runeCount s)) eqn:C; [|done].
  apply andb_prop in C as [C1 C2]. lia.
Qed.

Lemma printCell_uncapped t j i r mw wd w :
  maxWidths t !! i = Some mw -> mw <= 0 \/ runeCount r <= mw ->
  widths t !! i = Some wd -> is_Some (format t !! i) ->
  printCell t j i r w =
    (w ++ [padded t i (applyStyle (styleByPrecedence t j i r) r)
             (int (int (wd + padding t) - runeCount r))], Done tt).
Proof.
  intros Hm Hc Hw Hf. unfold printCell, bind.
  rewrite (truncateTo_uncapped t i r mw) by done.
  unfold checked. rewrite Hw. unfold ret at 1.
  by rewrite styled_ok by done.
Qed.

Lemma printHeader_uncapped t i h mw wd w :
  maxWidths t !! i = Some mw -> mw <= 0 \/ runeCount h <= mw ->
  widths t !! i = Some wd ->
  printHeader t i h w =
    (w ++ [padded t i (applyStyle (formatHeader t) h)
             (int (int (wd + padding t) - runeCount h))], Done tt).
Proof.
  intros Hm Hc Hw. unfold printHeader, bind.
  rewrite (truncateTo_uncapped t i h mw) by done.
  unfold checked. by rewrite Hw.
Qed.

Lemma padded_inner t i text p :
  Z.of_nat i <> int (columns t - 1) ->
  padded t i text p = text +:+ spaces (Z.to_nat p).
Proof.
  intros Hi. unfold padded. rewrite (proj2 (Z.eqb_neq _ _)) by done.
  apply appendWhitespace_spaces.
Qed.

Lemma padded_last t i text p :
  Z.of_nat i = int (columns t - 1) -> padded t i text p = text.
Proof. intros Hi. unfold padded. by rewrite (proj2 (Z.eqb_eq _ _)). Qed.

Lemma bind_Done {St A B} (m : M St A) (k : A -> M St B) s s' a :
  m s = (s', Done a) -> bind m k s = k a s'.
Proof. intros E. unfold bind. by rewrite E. Qed.

Lemma elem_decide_cons (i col : Z) (cols : list Z) :
  bool_decide (i ∈ col :: cols) = bool_decide (i = col) || bool_decide (i ∈ cols).
Proof.
  apply eq_true_iff_eq. rewrite orb_true_iff, !bool_decide_eq_true.
  apply elem_of_cons.
Qed.

(** ** [New] *)

Lemma headerWidths_map hs : forall pre,
  headerWidths (length pre) hs (pre ++ replicate (length hs) 0) =
    pre ++ (runeCount <$> hs).
Proof.
  induction hs as [|h hs IH]; intros pre; simpl; [done|].
  rewrite insert_middle.
  replace (S (length pre)) with (length (pre ++ [runeCount h]))
    by (rewrite length_app; simpl; lia).
  replace (pre ++ runeCount h :: replicate (length hs) 0)
    with ((pre ++ [runeCount h]) ++ replicate (length hs) 0)
    by (by rewrite <- app_assoc).
  rewrite IH. by rewrite <- app_assoc.
Qed.

Lemma New_widths d hs : widths (New d hs) = runeCount <$> hs.
Proof. apply (headerWidths_map hs []). Qed.

(** ** The setters of a column's option *)

Section ColumnSetter.
Context {A : Type} (proj : Table -> list A) (set : list A -> Table -> Table).
Hypothesis proj_set : forall l t, proj (set l t) = l.
Hypothesis columns_set : forall l t, columns (set l t) = columns t.
Hypothesis set_set : forall l l' t, set l (set l' t) = set l t.
Hypothesis set_proj : forall t, set (proj t) t = t.

(** The loop [MaxWidth], [Precision] and [FormatCols] share. *)
Lemma setColumns_run (x : A) (cols : list Z) : forall t,
  Z.of_nat (length (proj t)) = columns t ->
  exists l,
    forRange (fun _ col =>
      t <- get ;;
      if inColumns t col then
        l <- checked (store (proj t) col x) ;; modify (set l)
      else ret tt) cols t = (set l t, Done tt) /\
    length l = length (proj t) /\
    forall i : nat,
      (i < length (proj t))%nat ->
      l !! i = if bool_decide (Z.of_nat i ∈ cols)
               then Some x else proj t !! i.
Proof.
  induction cols as [|col cols IH]; intros t Hl.
  - exists (proj t). simpl. unfold ret. rewrite set_proj.
    split; [done|]. split; [done|]. intros i _.
    done.
  - cbn [forRange].
    destruct (inColumns t col) eqn:Hin.
    + assert (Hb : (t0 <- get ;;
                    if inColumns t0 col then
                      l <- checked (store (proj t0) col x) ;; modify (set l)
                    else ret tt) t
                   = (set (<[Z.to_nat col := x]> (proj t)) t, Done tt)).
      { unfold bind, get. rewrite Hin.
        unfold inColumns in Hin. apply andb_prop in Hin as [H0 H1].
        apply Z.leb_le in H0. apply Z.ltb_lt in H1.
        unfold store.
        rewrite (proj2 (Z.ltb_ge col 0)) by lia.
        by rewrite (proj2 (Z.leb_gt (Z.of_nat (length (proj t))) col)) by lia. }
      rewrite (bind_Done _ _ _ _ _ Hb).
      unfold inColumns in Hin. apply andb_prop in Hin as [H0 H1].
      apply Z.leb_le in H0. apply Z.ltb_lt in H1.
      destruct (IH (set (<[Z.to_nat col := x]> (proj t)) t))
        as (l & E & L & P).
      { rewrite proj_set, columns_set, length_insert. done. }
      exists l. rewrite E, set_set. split; [done|].
      rewrite proj_set, length_insert in L. split; [done|].
      intros i Hi. rewrite P by (by rewrite proj_set, length_insert).
      rewrite proj_set.
      destruct (decide (Z.of_nat i = col)) as [<-|Hne].
      * rewrite Nat2Z.id, list_lookup_insert_eq by lia.
        rewrite elem_decide_cons.
        rewrite (bool_decide_eq_true_2 (Z.of_nat i = Z.of_nat i)) by done.
        simpl. by destruct (bool_decide _).
      * rewrite list_lookup_insert_ne by lia.
        by rewrite elem_decide_cons, (bool_decide_eq_false_2 _ Hne).
    + assert (Hb : (t0 <- get ;;
                    if inColumns t0 col then
                      l <- checked (store (proj t0) col x) ;; modify (set l)
                    else ret tt) t = (t, Done tt)).
      { unfold bind, get. by rewrite Hin. }
      rewrite (bind_Done _ _ _ _ _ Hb).
      destruct (IH t Hl) as (l & E & L & P).
      exists l. split; [done|]. split; [done|].
      intros i Hi. rewrite P by done.
      assert (Hne : Z.of_nat i <> col).
      { intros <-. unfold inColumns in Hin. lia. }
      by rewrite elem_decide_cons, (bool_decide_eq_false_2 _ Hne).
Qed.
End ColumnSetter.

Lemma MaxWidth_run chars cols t :
  wf t ->
  exists l,
    MaxWidth chars cols t = (set_maxWidths l t, Done tt) /\
    length l = length (maxWidths t) /\
    forall i : nat, (i < length (maxWidths t))%nat ->
      l !! i = if bool_decide (Z.of_nat i ∈ cols) then Some chars
               else maxWidths t !! i.
Proof.
  intros Ht.
  apply (setColumns_run maxWidths set_maxWidths); try done.
  - by intros [].
  - by rewrite (wf_maxWidths t Ht), (wf_columns t Ht).
Qed.

Lemma Precision_run digits cols t :
  wf t ->
  exists l,
    Precision digits cols t = (set_precision l t, Done tt) /\
    length l = length (precision t) /\
    forall i : nat, (i < length (precision t))%nat ->
      l !! i = if bool_decide (Z.of_nat i ∈ cols) then Some digits
               else precision t !! i.
Proof.
  intros Ht.
  apply (setColumns_run precision set_precision); try done.
  - by intros [].
  - by rewrite (wf_precision t Ht), (wf_columns t Ht).
Qed.

Lemma FormatCols_run fn cols t :
  wf t ->
  exists l,
    FormatCols fn cols t = (set_format l t, Done tt) /\
    length l = length (format t) /\
    forall i : nat, (i < length (format t))%nat ->
      l !! i = if bool_decide (Z.of_nat i ∈ cols) then Some fn
               else format t !! i.
Proof.
  intros Ht.
  apply (setColumns_run format set_format); try done.
  - by intros [].
  - by rewrite (wf_format t Ht), (wf_columns t Ht).
Qed.

(** ** The styles kept in maps *)

Lemma mapGet_insert m k fn k' :
  mapGet (<[k := fn]> m) k' = if bool_decide (k' = k) then fn else mapGet m k'.
Proof.
  unfold mapGet. case_bool_decide as E.
  - subst. by rewrite lookup_insert_eq.
  - by rewrite lookup_insert_ne.
Qed.

Lemma FormatNotZero_run fn cols : forall t,
  exists m,
    FormatNotZero fn cols t = (set_formatNotZero m t, Done tt) /\
    forall k, mapGet m k =
      if bool_decide (k ∈ cols) && inColumns t k then fn
      else mapGet (formatNotZero t) k.
Proof.
  unfold FormatNotZero.
  induction cols as [|col cols IH]; intros t.
  - exists (formatNotZero t). split; [simpl; unfold ret; by destruct t|].
    intros k.
    rewrite (bool_decide_eq_false_2 (k ∈ [])) by apply not_elem_of_nil. done.
  - cbn [forRange].
    destruct (inColumns t col) eqn:Hin.
    + rewrite (bind_Done _ _ _ (set_formatNotZero (<[col := fn]> (formatNotZero t)) t) tt)
        by (unfold bind, get; by rewrite Hin).
      destruct (IH (set_formatNotZero (<[col := fn]> (formatNotZero t)) t))
        as (m & E & P).
      exists m. split; [by rewrite E|]. intros k. rewrite P.
      change (inColumns (set_formatNotZero (<[col := fn]> (formatNotZero t)) t) k)
        with (inColumns t k).
      cbn [formatNotZero set_formatNotZero].
      rewrite mapGet_insert, elem_decide_cons.
      destruct (decide (k = col)) as [->|Hne].
      * rewrite (bool_decide_eq_true_2 (col = col)) by done.
        rewrite Hin. simpl. rewrite andb_true_r.
        by destruct (bool_decide _).
      * by rewrite (bool_decide_eq_false_2 (k = col)) by done.
    + rewrite (bind_Done _ _ _ t tt) by (unfold bind, get; by rewrite Hin).
      destruct (IH t) as (m & E & P).
      exists m. split; [done|]. intros k. rewrite P, elem_decide_cons.
      destruct (decide (k = col)) as [->|Hne].
      * rewrite Hin. by rewrite !andb_false_r.
      * by rewrite (bool_decide_eq_false_2 (k = col)) by done.
Qed.

Lemma FormatRows_run fn rws : forall t,
  exists m,
    FormatRows fn rws t = (set_formatRow m t, Done tt) /\
    forall k, mapGet m k =
      if bool_decide (k ∈ resolveRow t <$> rws) then fn
      else mapGet (formatRow t) k.
Proof.
  unfold FormatRows.
  induction rws as [|row rws IH]; intros t.
  - exists (formatRow t). split; [simpl; unfold ret; by destruct t|].
    intros k.
    rewrite fmap_nil.
    rewrite (bool_decide_eq_false_2 (k ∈ [])) by apply not_elem_of_nil. done.
  - cbn [forRange].
    rewrite (bind_Done _ _ _
               (set_formatRow (<[resolveRow t row := fn]> (formatRow t)) t) tt)
      by done.
    destruct (IH (set_formatRow (<[resolveRow t row := fn]> (formatRow t)) t))
      as (m & E & P).
    exists m. split; [by rewrite E|]. intros k. rewrite P.
    cbn [formatRow set_formatRow].
    rewrite mapGet_insert. rewrite fmap_cons, elem_decide_cons.
    change (resolveRow
              (set_formatRow (<[resolveRow t row := fn]> (formatRow t)) t))
      with (resolveRow t).
    destruct (bool_decide (k ∈ resolveRow t <$> rws)); simpl.
    + by rewrite orb_true_r.
    + by rewrite orb_false_r.
Qed.

(** ** The widths [Row] tracks *)

Lemma Forall2_le_refl (ws : list Z) : Forall2 Z.le ws ws.
Proof. induction ws; constructor; auto; lia. Qed.

Lemma Forall2_le_insert (ws : list Z) : forall i w x,
  ws !! i = Some w -> w <= x -> Forall2 Z.le ws (<[i := x]> ws).
Proof.
  induction ws as [|y ws IH]; intros [|i] w x Hi Hx; simpl in *; try done.
  - injection Hi as ->. constructor; [done | apply Forall2_le_refl].
  - constructor; [lia | by apply (IH i w)].
Qed.

Lemma Forall2_le_trans (a b c : list Z) :
  Forall2 Z.le a b -> Forall2 Z.le b c -> Forall2 Z.le a c.
Proof.
  intros Hab. revert c. induction Hab; intros c Hbc; inversion Hbc; subst;
    constructor; [lia | auto].
Qed.

Section RowWidths.
Context `{Strconv.ShortestDecimal}.

Lemma rowCell_raises i v t :
  Forall2 Z.le (widths t) (widths (fst (rowCell i v t))).
Proof.
  rewrite rowCell_run.
  destruct (precision t !! i); [|apply Forall2_le_refl].
  destruct (stringify _ v) as [s|]; [|apply Forall2_le_refl].
  destruct (widths t !! i) as [w|] eqn:Ew; [|apply Forall2_le_refl].
  simpl. destruct (Z.ltb_spec w (runeCount s)); [|apply Forall2_le_refl].
  simpl. apply (Forall2_le_insert _ i w); [done | lia].
Qed.

Lemma rowLoop_raises values : forall i t,
  Forall2 Z.le (widths t) (widths (fst (rowLoop i values t))).
Proof.
  induction values as [|v values IH]; intros i t; simpl.
  - apply Forall2_le_refl.
  - unfold bind. pose proof (rowCell_raises i v t) as R1.
    destruct (rowCell i v t) as [t1 [s| |]]; simpl in *; try done.
    pose proof (IH (S i) t1) as R2.
    destruct (rowLoop (S i) values t1) as [t2 [row| |]]; simpl in *;
      by apply (Forall2_le_trans _ (widths t1)).
Qed.

Lemma rowCell_fits i v t t' s :
  rowCell i v t = (t', Done s) ->
  exists wd, widths t' !! i = Some wd /\ runeCount s <= wd.
Proof.
  rewrite rowCell_run.
  destruct (precision t !! i); [|done].
  destruct (stringify _ v) as [s'|]; [|done].
  destruct (widths t !! i) as [w|] eqn:Ew; [|done].
  intros [= <- <-]. destruct (Z.ltb_spec w (runeCount s')).
  - exists (runeCount s'). simpl. split; [|lia].
    apply list_lookup_insert_eq. by apply lookup_lt_Some in Ew.
  - by exists w.
Qed.

Lemma rowLoop_fits values : forall i t t' row,
  rowLoop i values t = (t', Done row) ->
  forall k s, row !! k = Some s ->
    exists wd, widths t' !! (i + k)%nat = Some wd /\ runeCount s <= wd.
Proof.
  induction values as [|v values IH]; intros i t t' row E; simpl in E.
  - injection E as <- <-. by intros k s.
  - apply bind_inv_done in E as (t1 & s0 & E1 & E).
    apply bind_inv_done in E as (t2 & row' & E2 & E).
    injection E as <- <-.
    intros [|k] s Hk; simpl in Hk.
    + injection Hk as <-. rewrite Nat.add_0_r.
      destruct (rowCell_fits i v t t1 s0 E1) as (wd & Hw & Hle).
      pose proof (rowLoop_raises values (S i) t1) as R. rewrite E2 in R.
      simpl in R.
      destruct (Forall2_lookup_l _ _ _ _ _ R Hw) as (wd' & Hw' & Hle').
      exists wd'. split; [done | lia].
    + rewrite Nat.add_succ_r. by apply (IH (S i) t1 t2 row').
Qed.

Lemma stringify_defined p v :
  noNilPointer v -> is_Some (stringify p v).
Proof.
  intros [H1 H2]. destruct v as [| | | | | | |[q|]|[q|]| | | |]; simpl;
    try (eexists; reflexivity); congruence.
Qed.

Lemma rowLoop_ok values : forall i t,
  Forall noNilPointer values ->
  (i + length values <= length (precision t))%nat ->
  (i + length values <= length (widths t))%nat ->
  exists t' row, rowLoop i values t = (t', Done row).
Proof.
  induction values as [|v values IH]; intros i t Hv Hp Hw; simpl.
  - by eexists _, _.
  - apply Forall_cons in Hv as [Hv0 Hv]. simpl in Hp, Hw.
    destruct (lookup_lt_is_Some_2 (precision t) i ltac:(lia)) as [p Ep].
    destruct (lookup_lt_is_Some_2 (widths t) i ltac:(lia)) as [w Ew].
    destruct (stringify_defined (effective p) v Hv0) as [s Es].
    destruct (rowCell_frame i v t) as (ws & F & L).
    assert (E1 : exists t1, rowCell i v t = (t1, Done s)).
    { rewrite rowCell_run, Ep, Es, Ew. by eexists. }
    destruct E1 as [t1 E1]. rewrite E1 in F. simpl in F. subst t1.
    rewrite (bind_Done _ _ _ _ _ E1).
    destruct (IH (S i) (set_widths ws t) Hv) as (t2 & row & E2);
      [simpl; lia | simpl; lia |].
    rewrite (bind_Done _ _ _ _ _ E2). by eexists _, _.
Qed.

Lemma Row_ok t values :
  wf t -> Forall noNilPointer values ->
  exists t', Row values t = (t', Done tt).
Proof.
  intros Ht Hv. pose proof (wf_columns_nonneg t Ht) as Hc.
  rewrite Row_run by done.
  pose proof (kept_length t values Hc) as Hk.
  destruct (rowLoop_ok (kept t values) 0 t) as (t1 & row & ->).
  - unfold kept. destruct (_ <? _); [by apply Forall_take | done].
  - rewrite (wf_precision t Ht). rewrite (wf_columns t Ht) in Hk. lia.
  - rewrite (wf_widths t Ht). rewrite (wf_columns t Ht) in Hk. lia.
  - by eexists.
Qed.

End RowWidths.

(** ** [AddStruct] *)

Section Structs.
Context `{Strconv.ShortestDecimal}.

Lemma Row_pair t name v p :
  wf t -> 2 <= columns t -> precision t !! 1%nat = Some p ->
  noNilPointer v ->
  exists t',
    Row [VString name; v] t = (t', Done tt) /\
    rows t' = rows t ++ [fieldRow p (name, Some v)] /\
    wf t' /\ columns t' = columns t /\ precision t' = precision t.
Proof.
  intros Ht Hc Hp Hv.
  destruct (Row_ok t [VString name; v] Ht) as [t' E].
  { constructor; [by split | constructor; [done | constructor]]. }
  exists t'. split; [done|].
  pose proof (preserves_Row [VString name; v] t Ht) as Ht'.
  rewrite E in Ht'. simpl in Ht'.
  destruct (Row_done t [VString name; v] t' ltac:(lia) E)
    as (ws & row & -> & Lw & Lr & P).
  assert (Hk : kept t [VString name; v] = [VString name; v]).
  { unfold kept. simpl. by rewrite (proj2 (Z.ltb_ge _ _)) by lia. }
  rewrite Hk in *. simpl in Lr.
  destruct (P 0%nat (VString name) eq_refl) as (p0 & s0 & _ & Hs0 & Hr0).
  destruct (P 1%nat v eq_refl) as (p1 & s1 & Hp1 & Hs1 & Hr1).
  assert (p1 = p) as -> by congruence.
  simpl in Hs0. injection Hs0 as <-.
  destruct row as [|a [|b [|c row]]]; simpl in Lr; try lia.
  simpl in Hr0, Hr1. injection Hr0 as ->. injection Hr1 as ->.
  split; [|done]. simpl. unfold fieldRow. simpl. by rewrite Hs1.
Qed.

End Structs.

(** ** [Swap] and [Less] *)

Lemma index_in_range {A} (l : list A) i :
  0 <= i < Z.of_nat (length l) -> is_Some (index l i).
Proof.
  intros Hi. unfold index. rewrite (proj2 (Z.ltb_ge i 0)) by lia.
  apply lookup_lt_is_Some. lia.
Qed.

Lemma index_out_of_range {A} (l : list A) i :
  i < 0 \/ Z.of_nat (length l) <= i -> index l i = None.
Proof.
  intros Hi. unfold index. destruct (Z.ltb_spec i 0); [done|].
  apply lookup_ge_None. lia.
Qed.

Lemma store_in_range {A} (l : list A) i x :
  0 <= i < Z.of_nat (length l) -> store l i x = Some (<[Z.to_nat i := x]> l).
Proof.
  intros Hi. unfold store. rewrite (proj2 (Z.ltb_ge i 0)) by lia.
  by rewrite (proj2 (Z.leb_gt _ _)) by lia.
Qed.

Lemma Swap_run t i j ri rj :
  index (rows t) i = Some ri -> index (rows t) j = Some rj ->
  Swap i j t =
    (set_rows (<[Z.to_nat j := ri]> (<[Z.to_nat i := rj]> (rows t))) t, Done tt).
Proof.
  intros Hi Hj. unfold Swap, bind, get, checked, modify, ret.
  rewrite Hi, Hj.
  apply index_Some in Hi as [Hi0 Hi]. apply index_Some in Hj as [Hj0 Hj].
  apply lookup_lt_Some in Hi, Hj.
  rewrite store_in_range by lia.
  by rewrite store_in_range by (rewrite length_insert; lia).
Qed.

Lemma Swap_out_of_range t i j :
  index (rows t) i = None \/ index (rows t) j = None ->
  Swap i j t = (t, Panicked).
Proof.
  intros Hij. unfold Swap, bind, get, checked, modify, ret, panic.
  destruct (index (rows t) j) as [rj|]; [|done].
  destruct (index (rows t) i) as [ri|]; [|done].
  by destruct Hij.
Qed.

Lemma swap_twice {A} (l : list A) (i j : nat) x y :
  l !! i = Some x -> l !! j = Some y ->
  <[j := y]> (<[i := x]> (<[j := x]> (<[i := y]> l))) = l.
Proof.
  intros Hi Hj. apply list_eq. intros k.
  pose proof (lookup_lt_Some _ _ _ Hi). pose proof (lookup_lt_Some _ _ _ Hj).
  destruct (decide (k = j)) as [->|Hkj].
  - rewrite list_lookup_insert_eq by (rewrite !length_insert; lia). done.
  - rewrite list_lookup_insert_ne by done.
    destruct (decide (k = i)) as [->|Hki].
    + rewrite list_lookup_insert_eq by (rewrite !length_insert; lia). done.
    + by rewrite !list_lookup_insert_ne by done.
Qed.

Lemma swap_lookups {A} (l : list A) (i j : nat) x y :
  l !! i = Some x -> l !! j = Some y ->
  <[j := x]> (<[i := y]> l) !! i = Some (if decide (i = j) then x else y) /\
  <[j := x]> (<[i := y]> l) !! j = Some x.
Proof.
  intros Hi Hj.
  pose proof (lookup_lt_Some _ _ _ Hi). pose proof (lookup_lt_Some _ _ _ Hj).
  split.
  - destruct (decide (i = j)) as [->|Hne].
    + by rewrite list_lookup_insert_eq by (rewrite length_insert; lia).
    + rewrite list_lookup_insert_ne by done.
      by rewrite list_lookup_insert_eq by lia.
  - by rewrite list_lookup_insert_eq by (rewrite length_insert; lia).
Qed.

Lemma lessLoop_flip rws i j ks : forall c c',
  lessLoop rws i j ks c = Some c' -> lessLoop rws j i ks (- c) = Some (- c').
Proof.
  induction ks as [|k ks IH]; intros c c'; simpl.
  - by intros [= <-].
  - destruct (index rws i ≫= _) as [a|]; [|done].
    destruct (index rws j ≫= _) as [b|]; [|done].
    rewrite (Compare_antisym a b).
    destruct (Z.eqb_spec (Strings.Compare a b) 0) as [E|E].
    + rewrite E. simpl. intros Hl. exact (IH 0 c' Hl).
    + rewrite (proj2 (Z.eqb_neq _ _)) by lia. by intros [= <-].
Qed.

Lemma Less_reads_only i j t : fst (Less i j t) = t.
Proof.
  unfold Less, bind, get, checked, ret, panic.
  by destruct (lessLoop _ _ _ _ _).
Qed.

Lemma Less_flip i j t :
  Less i j t = (t, Done true) -> Less j i t = (t, Done false).
Proof.
  unfold Less, bind, get, checked, ret, panic.
  destruct (lessLoop (rows t) i j (sortBy t) 0) as [c|] eqn:E; [|done].
  apply lessLoop_flip in E. change (- 0) with 0 in E. rewrite E.
  intros [= Hc]. do 2 f_equal. lia.
Qed.

Lemma Less_self i t : snd (Less i i t) <> Done true.
Proof.
  unfold Less, bind, get, checked, ret, panic.
  destruct (lessLoop (rows t) i i (sortBy t) 0) as [c|] eqn:E; [|done].
  pose proof (lessLoop_flip _ _ _ _ _ _ E) as E'. change (- 0) with 0 in E'.
  rewrite E in E'. injection E' as Hc. simpl. intros [= Hlt]. lia.
Qed.

(** ** [Sort] at the edges *)

Lemma Sort_short cols t :
  (length (rows t) <= 1)%nat -> Sort cols t = (set_sortBy cols t, Done tt).
Proof.
  intros Hn. unfold Sort, bind, modify at 1. cbn [fst snd].
  unfold GoSort.Sort, bind. cbn [GoSort.Len Table_Interface].
  unfold Len, bind, get, ret. cbn [rows set_sortBy].
  by rewrite (proj2 (Z.leb_le _ _)) by lia.
Qed.

Lemma Sort_bad_column k ks t :
  wf t -> (2 <= length (rows t))%nat -> k < 0 \/ columns t <= k ->
  Sort (k :: ks) t = (set_sortBy (k :: ks) t, Panicked).
Proof.
  intros Ht Hn Hk. unfold Sort, bind, modify at 1. cbn [fst snd].
  unfold GoSort.Sort, bind. cbn [GoSort.Len Table_Interface].
  unfold Len, bind, get, ret. cbn [rows set_sortBy].
  rewrite (proj2 (Z.leb_gt _ _)) by lia.
  rewrite Nat2Z.id. unfold GoSort.insertionSort.
  destruct (rows t) as [|r0 [|r1 rest]] eqn:Er; simpl in Hn; try lia.
  cbn [length Nat.sub seq forRange GoSort.insertionInner].
  unfold bind. cbn [GoSort.Less Table_Interface].
  unfold Less, bind, get, checked, ret, panic. cbn [rows set_sortBy sortBy].
  rewrite Er. cbn [lessLoop].
  assert (index r1 k = None) as E1.
  { apply index_out_of_range. destruct Hk as [Hk|Hk]; [by left | right].
    pose proof (wf_rows t Ht) as Hr. rewrite Er in Hr.
    apply Forall_cons in Hr as [_ Hr]. apply Forall_cons in Hr as [Hr _]. lia. }
  change (index (r0 :: r1 :: rest) (Z.of_nat 1)) with (Some r1).
  simpl. by rewrite E1.
Qed.

(** ** What [Sort] and [Swap] keep *)

Lemma swap_head_perm {A} (l : list A) : forall j x y,
  l !! j = Some y -> y :: <[j := x]> l ≡ₚ x :: l.
Proof.
  induction l as [|z l IH]; intros [|j] x y Hj; simpl in *; try done.
  - injection Hj as ->. apply Permutation_swap.
  - etrans; [apply Permutation_swap|].
    etrans; [|apply Permutation_swap]. constructor. by apply IH.
Qed.

Lemma swap_perm {A} (l : list A) : forall i j x y,
  l !! i = Some x -> l !! j = Some y -> <[j := x]> (<[i := y]> l) ≡ₚ l.
Proof.
  induction l as [|z l IH]; intros [|i] [|j] x y Hi Hj; simpl in *; try done.
  - by injection Hi as ->.
  - injection Hi as ->. by apply swap_head_perm.
  - injection Hj as ->. symmetry. rewrite <- (swap_head_perm l i y x Hi).
    done.
  - constructor. by apply (IH i j).
Qed.

Lemma Swap_permutes i j t :
  exists rws, fst (Swap i j t) = set_rows rws t /\ rws ≡ₚ rows t.
Proof.
  destruct (index (rows t) i) as [ri|] eqn:Ei.
  - destruct (index (rows t) j) as [rj|] eqn:Ej.
    + rewrite (Swap_run t i j ri rj) by done. eexists. split; [done|].
      apply index_Some in Ei as [_ Ei]. apply index_Some in Ej as [_ Ej].
      by apply swap_perm.
    + rewrite Swap_out_of_range by auto. exists (rows t).
      by rewrite set_rows_same.
  - rewrite Swap_out_of_range by auto. exists (rows t).
    by rewrite set_rows_same.
Qed.

Lemma Sort_permutes cols t :
  exists rws,
    fst (Sort cols t) = set_rows rws (set_sortBy cols t) /\ rws ≡ₚ rows t.
Proof.
  pose (P := fun s : Table =>
    exists rws, s = set_rows rws (set_sortBy cols t) /\ rws ≡ₚ rows t).
  assert (HP : preserves P (GoSort.Sort (St := Table))).
  { apply preserves_GoSort.
    - by intros s.
    - intros a b s Hs. cbn [GoSort.Less Table_Interface].
      by rewrite Less_reads_only.
    - intros a b s (rws & -> & Hp). cbn [GoSort.Swap Table_Interface].
      destruct (Swap_permutes a b (set_rows rws (set_sortBy cols t)))
        as (rws' & -> & Hp').
      exists rws'. split; [done|]. simpl in Hp'. by rewrite Hp'. }
  unfold Sort, bind, modify at 1. cbn [fst snd].
  specialize (HP (set_sortBy cols t)).
  destruct (GoSort.Sort (set_sortBy cols t)) as [s r]. simpl in *.
  assert (P s) as (rws & -> & Hp).
  { apply HP. exists (rows t). split; [by destruct t | done]. }
  exists rws. by destruct r.
Qed.

(** ** The headers and the column count never change *)

Lemma preserves_get {St} (P : St -> Prop) : preserves P get.
Proof. by intros s. Qed.

Ltac shaped :=
  repeat first
    [ apply preserves_ret | apply preserves_panic | apply preserves_checked
    | apply preserves_get
    | apply preserves_forRange; intros ? ?
    | apply preserves_bind; [|intros ?]
    | match goal with
      | |- preserves _ (modify _) => by intros ? [? ?]
      | |- preserves _ (if ?c then _ else _) => destruct c
      | |- preserves _ (match ?c with _ => _ end) => destruct c
      end ].

Section Shape.
Context `{Strconv.ShortestDecimal}.
Variables (hs : list string) (n : Z).

Lemma shaped_rowLoop values : forall i, preserves (shaped hs n) (rowLoop i values).
Proof.
  induction values as [|v values IH]; intros i; simpl; [shaped|].
  apply preserves_bind; [unfold rowCell; shaped|]. intros ?.
  apply preserves_bind; [apply IH|]. intros ?. shaped.
Qed.

Lemma shaped_Row values : preserves (shaped hs n) (Row values).
Proof.
  unfold Row. apply preserves_bind; [shaped|]. intros ?.
  apply preserves_bind; [shaped|]. intros ?.
  apply preserves_bind; [apply shaped_rowLoop|]. intros ?. shaped.
Qed.

Lemma shaped_exec c : forall t, shaped hs n t -> shaped hs n (exec c t).
Proof.
  destruct c; simpl; intros t Ht.
  - revert t Ht. change (preserves (shaped hs n) (AddStruct m)).
    destruct m; simpl; [shaped | shaped |].
    apply preserves_forRange. intros ? ?.
    apply preserves_bind; [shaped|]. intros ?. apply shaped_Row.
  - by destruct Ht.
  - by destruct Ht.
  - revert t Ht. change (preserves (shaped hs n) (MaxWidth chars cols)).
    unfold MaxWidth. shaped.
  - revert t Ht. change (preserves (shaped hs n) (Precision digits cols)).
    unfold Precision. shaped.
  - revert t Ht. change (preserves (shaped hs n) (FormatRows fn rws)).
    unfold FormatRows. shaped.
  - revert t Ht. change (preserves (shaped hs n) (FormatCols fn cols)).
    unfold FormatCols. shaped.
  - revert t Ht. change (preserves (shaped hs n) (FormatNotZero fn cols)).
    unfold FormatNotZero. shaped.
  - revert t Ht. change (preserves (shaped hs n) (Swap i j)).
    unfold Swap. shaped.
  - destruct (Sort_permutes cols t) as (rws & -> & _). by destruct Ht.
  - by apply shaped_Row.
  - rewrite Print_table. by destruct Ht.
Qed.
End Shape.

(** ** The escape sequences *)

Lemma buildListLoop_join n attr : forall i s,
  Z.of_nat i + Z.of_nat (length attr) = n -> n < 2 ^ 63 ->
  Ansi.buildListLoop n i attr s =
    s +:+ String.concat ";" ((fun a => Strconv.Itoa (int a)) <$> attr).
Proof.
  induction attr as [|a attr IH]; intros i s Hn Hb; simpl.
  - by rewrite append_nil_r.
  - simpl in Hn. rewrite int_small by lia.
    destruct attr as [|b attr].
    + simpl in *. rewrite (proj2 (Z.eqb_eq _ _)) by lia. done.
    + rewrite (proj2 (Z.eqb_neq _ _)) by (simpl in Hn; lia).
      rewrite IH by (simpl in *; lia).
      by rewrite !append_assoc.
Qed.

Lemma buildList_join attr :
  Z.of_nat (length attr) < 2 ^ 63 ->
  Ansi.buildList attr =
    String.concat ";" ((fun a => Strconv.Itoa (int a)) <$> attr).
Proof.
  intros Hb. unfold Ansi.buildList.
  by rewrite (buildListLoop_join _ attr 0 EmptyString) by (done || lia).
Qed.

Section MoreRows.
Context `{Strconv.ShortestDecimal}.

Lemma Row_raises values t :
  Forall2 Z.le (widths t) (widths (fst (Row values t))).
Proof.
  unfold Row, bind, get at 1.
  assert (forall vs, Forall2 Z.le (widths t) (widths (fst (
    match rowLoop 0 vs t with
    | (s', Done a) =>
        (t0 <- get ;; modify (set_rows (rows t0 ++ [a]))) s'
    | (s', Failed e) => (s', Failed e)
    | (s', Panicked) => (s', Panicked)
    end)))) as Hvs.
  { intros vs. pose proof (rowLoop_raises vs 0 t) as R.
    by destruct (rowLoop 0 vs t) as [t1 [row| |]]. }
  destruct (columns t <? Z.of_nat (length values)).
  - unfold checked, sliceList. destruct (columns t <? 0).
    + apply Forall2_le_refl.
    + apply Hvs.
  - apply Hvs.
Qed.

Lemma Row_fits values t t' :
  Row values t = (t', Done tt) ->
  exists row,
    rows t' = rows t ++ [row] /\
    forall k s, row !! k = Some s ->
      exists wd, widths t' !! k = Some wd /\ runeCount s <= wd.
Proof.
  unfold Row. intros E.
  apply bind_inv_done in E as (t0 & t0' & E0 & E). injection E0 as <- <-.
  apply bind_inv_done in E as (t1 & vs & E1 & E).
  assert (t1 = t) as ->.
  { destruct (_ <? _); [|by injection E1].
    unfold checked in E1. destruct (sliceList _ _); [by injection E1 | done]. }
  apply bind_inv_done in E as (t2 & row & E2 & E).
  injection E as <-. exists row.
  destruct (rowLoop_frame vs 0 t) as (ws & F & _). rewrite E2 in F.
  simpl in F. subst t2. split; [done|].
  intros k s Hk. apply (rowLoop_fits vs 0 t _ row E2 k s Hk).
Qed.

Lemma AddStruct_unexported pre : forall t p name post,
  wf t -> 2 <= columns t -> precision t !! 1%nat = Some p ->
  Forall (fun fld => exists v, snd fld = Some v /\ noNilPointer v) pre ->
  exists t',
    AddStruct (RStruct (pre ++ (name, None) :: post)) t = (t', Panicked) /\
    rows t' = rows t ++ (fieldRow p <$> pre).
Proof.
  simpl. induction pre as [|[nm ov] pre IH]; intros t p name post Ht Hc Hp Hf.
  - exists t. simpl. by rewrite app_nil_r.
  - apply Forall_cons in Hf as [(v & Hv & Hn) Hf]. simpl in Hv. subst ov.
    cbn [app forRange].
    destruct (Row_pair t nm v p Ht Hc Hp Hn) as (t1 & E1 & R1 & Ht1 & C1 & P1).
    rewrite (bind_Done _ _ _ t1 tt)
      by (unfold bind, checked, ret; simpl; by rewrite E1).
    destruct (IH t1 p name post Ht1) as (t2 & E2 & R2);
      [lia | congruence | done |].
    exists t2. split; [done|].
    rewrite R2, R1, <- app_assoc. done.
Qed.
End MoreRows.

Lemma Less_unsorted i j t : sortBy t = [] -> Less i j t = (t, Done false).
Proof. intros E. unfold Less, bind, get, checked, ret. by rewrite E. Qed.

Lemma len_app a b : len (a +:+ b) = len a + len b.
Proof. unfold len. rewrite length_app_string. lia. Qed.

(** ** What the methods do *)

(** X1: [New] tracks, for each header, its length in code points, and sets
    up as many widths, max widths, precisions and column styles as there
    are headers, with the column count their number, no rows, and the
    default header style as the header style. *)
Theorem New_tracks_header_lengths (d : option FormatFunc) (hs : list string) :
  widths (New d hs) = runeCount <$> hs /\ wf (New d hs) /\
  rows (New d hs) = [] /\ formatHeader (New d hs) = d.
Proof.
  split; [apply New_widths|]. split; [apply wf_New|]. by split.
Qed.

(** X2: on a well-formed table, [MaxWidth], [Precision] and [FormatCols]
    return normally, change nothing but their own option, set it to the
    given value at every listed index that is a column, and leave it as it
    was elsewhere; a listed index that is no column has no effect. *)
Theorem column_setters_set_listed_columns (t : Table) (cols : list Z)
    (chars digits : Z) (fn : option FormatFunc) :
  wf t ->
  (exists l,
     MaxWidth chars cols t = (set_maxWidths l t, Done tt) /\
     length l = length (maxWidths t) /\
     forall i : nat, (i < length (maxWidths t))%nat ->
       l !! i = if bool_decide (Z.of_nat i ∈ cols) then Some chars
                else maxWidths t !! i) /\
  (exists l,
     Precision digits cols t = (set_precision l t, Done tt) /\
     length l = length (precision t) /\
     forall i : nat, (i < length (precision t))%nat ->
       l !! i = if bool_decide (Z.of_nat i ∈ cols) then Some digits
                else precision t !! i) /\
  (exists l,
     FormatCols fn cols t = (set_format l t, Done tt) /\
     length l = length (format t) /\
     forall i : nat, (i < length (format t))%nat ->
       l !! i = if bool_decide (Z.of_nat i ∈ cols) then Some fn
                else format t !! i).
Proof.
  intros Ht. split; [by apply MaxWidth_run|].
  split; [by apply Precision_run | by apply FormatCols_run].
Qed.

(** Setting columns 1, 5 and -1 of a table of two columns sets column 1. *)
Lemma column_setters_set_listed_columns_witness :
  wf pairTable /\
  maxWidths (fst (MaxWidth 7 [1; 5; -1] pairTable)) = [0; 7] /\
  exists l,
    MaxWidth 7 [1; 5; -1] pairTable = (set_maxWidths l pairTable, Done tt) /\
    length l = length (maxWidths pairTable) /\
    forall i : nat, (i < length (maxWidths pairTable))%nat ->
      l !! i = if bool_decide (Z.of_nat i ∈ [1; 5; -1]) then Some 7
               else maxWidths pairTable !! i.
Proof.
  split; [apply wf_New|]. split; [reflexivity|].
  exact (proj1 (column_setters_set_listed_columns pairTable [1; 5; -1] 7 0 None
                  (wf_New None ["key"; "value"]))).
Defined.

(** X3: [FormatNotZero] returns normally, changes nothing but the non-zero
    styles, and files the style under every listed index that is a column;
    the style of any other index is as it was. *)
Theorem FormatNotZero_sets_listed_columns (fn : option FormatFunc)
    (cols : list Z) (t : Table) :
  exists m,
    FormatNotZero fn cols t = (set_formatNotZero m t, Done tt) /\
    forall k, mapGet m k =
      if bool_decide (k ∈ cols) && inColumns t k then fn
      else mapGet (formatNotZero t) k.
Proof. apply FormatNotZero_run. Qed.

(** X4: [FormatRows] returns normally, changes nothing but the row styles,
    and files the style under every listed index as it is, whether or not
    there is such a row, except that -1 stands for the index of the row
    that is last when the call is made: one less than the number of rows,
    which on a table without rows is -1 itself. *)
Theorem FormatRows_resolves_last_row (fn : option FormatFunc) (rws : list Z)
    (t : Table) :
  Z.of_nat (length (rows t)) < 2 ^ 63 ->
  exists m,
    FormatRows fn rws t = (set_formatRow m t, Done tt) /\
    forall k, mapGet m k =
      if bool_decide
           (k ∈ (fun row => if row =? -1
                            then Z.of_nat (length (rows t)) - 1 else row)
                <$> rws)
      then fn else mapGet (formatRow t) k.
Proof.
  intros Hn. destruct (FormatRows_run fn rws t) as (m & E & P).
  exists m. split; [done|]. intros k. rewrite P.
  replace (resolveRow t <$> rws)
    with ((fun row => if row =? -1
                      then Z.of_nat (length (rows t)) - 1 else row) <$> rws);
    [done|].
  apply list_fmap_ext. intros _ row _. unfold resolveRow.
  destruct (row =? -1); [|done]. symmetry. apply int_small. lia.
Qed.

(** On a table of three rows, -1 and 0 style rows 2 and 0, not row 1. *)
Lemma FormatRows_resolves_last_row_witness :
  Z.of_nat (length (rows lettersTable)) < 2 ^ 63 /\
  (let t' := fst (FormatRows (mark "R") [-1; 0] lettersTable) in
   mapGet (formatRow t') 2 = mark "R" /\ mapGet (formatRow t') 1 = None) /\
  exists m,
    FormatRows (mark "R") [-1; 0] lettersTable =
      (set_formatRow m lettersTable, Done tt) /\
    forall k, mapGet m k =
      if bool_decide
           (k ∈ (fun row => if row =? -1
                            then Z.of_nat (length (rows lettersTable)) - 1
                            else row) <$> [-1; 0])
      then mark "R" else mapGet (formatRow lettersTable) k.
Proof.
  assert (Hn : Z.of_nat (length (rows lettersTable)) < 2 ^ 63) by reflexivity.
  split; [exact Hn|]. split; [split; reflexivity|].
  exact (FormatRows_resolves_last_row (mark "R") [-1; 0] lettersTable Hn).
Defined.

(** X5: [Row] never lowers a tracked width, however it ends; and when it
    returns normally it has appended one row, and the tracked width of
    each column is at least the length in code points of the text the row
    has there. *)
Theorem Row_raises_widths `{Strconv.ShortestDecimal}
    (values : list value) (t t' : Table) :
  Row values t = (t', Done tt) ->
  Forall2 Z.le (widths t) (widths t') /\
  exists row,
    rows t' = rows t ++ [row] /\
    forall k s, row !! k = Some s ->
      exists wd, widths t' !! k = Some wd /\ runeCount s <= wd.
Proof.
  intros E. split; [|by apply (Row_fits values)].
  pose proof (Row_raises values t) as R. by rewrite E in R.
Qed.

(** A value of five letters under a header of three raises the width
    to 5. *)
Lemma Row_raises_widths_witness :
  widths pairTable = [3; 5] /\
  widths (fst (Row (H := noShortest) [VString "hello"; VInt 1] pairTable))
    = [5; 5] /\
  Forall2 Z.le (widths pairTable)
    (widths (fst (Row (H := noShortest) [VString "hello"; VInt 1] pairTable))) /\
  exists row,
    rows (fst (Row (H := noShortest) [VString "hello"; VInt 1] pairTable))
      = rows pairTable ++ [row] /\
    forall k s, row !! k = Some s ->
      exists wd,
        widths (fst (Row (H := noShortest) [VString "hello"; VInt 1] pairTable))
          !! k = Some wd /\ runeCount s <= wd.
Proof.
  split; [reflexivity|]. split; [reflexivity|].
  apply (Row_raises_widths (H := noShortest) [VString "hello"; VInt 1] pairTable).
  reflexivity.
Defined.

(** X6: on a well-formed table, [Row] returns normally and appends exactly
    one row whenever none of the values is a nil pointer. *)
Theorem Row_returns_without_nil_pointer `{Strconv.ShortestDecimal}
    (values : list value) (t : Table) :
  wf t -> Forall noNilPointer values ->
  exists t' row, Row values t = (t', Done tt) /\ rows t' = rows t ++ [row].
Proof.
  intros Ht Hv. destruct (Row_ok t values Ht Hv) as [t' E].
  destruct (Row_fits values t t' E) as (row & Hr & _). by exists t', row.
Qed.

(** A string, a boolean and a nil interface value into two columns. *)
Lemma Row_returns_without_nil_pointer_witness :
  wf pairTable /\
  Forall noNilPointer [VString "a"; VBool true; VNil] /\
  exists t' row,
    Row (H := noShortest) [VString "a"; VBool true; VNil] pairTable
      = (t', Done tt) /\
    rows t' = rows pairTable ++ [row].
Proof.
  assert (Hv : Forall noNilPointer [VString "a"; VBool true; VNil]).
  { repeat (constructor; [by split|]). constructor. }
  split; [apply wf_New|]. split; [exact Hv|].
  exact (Row_returns_without_nil_pointer (H := noShortest)
           [VString "a"; VBool true; VNil] pairTable (wf_New None _) Hv).
Defined.

(** X7: on a well-formed table, a call of [Row] that does not return
    normally appends nothing: the rows are as they were. *)
Theorem Row_appends_nothing_unless_it_returns `{Strconv.ShortestDecimal}
    (values : list value) (t : Table) :
  wf t -> snd (Row values t) <> Done tt ->
  rows (fst (Row values t)) = rows t.
Proof.
  intros Ht Hn. rewrite Row_run in * by (by apply wf_columns_nonneg).
  destruct (rowLoop_frame (kept t values) 0 t) as (ws & F & _).
  destruct (rowLoop 0 (kept t values) t) as [t1 [row| |]]; simpl in *;
    by subst.
Qed.

(** A nil pointer in the second of two values. *)
Lemma Row_appends_nothing_unless_it_returns_witness :
  wf pairTable /\
  snd (Row (H := noShortest) [VString "a"; VStringPtr None] pairTable)
    <> Done tt /\
  rows (fst (Row (H := noShortest) [VString "a"; VStringPtr None] pairTable))
    = rows pairTable.
Proof.
  assert (Hn : snd (Row (H := noShortest) [VString "a"; VStringPtr None]
                      pairTable) <> Done tt) by discriminate.
  split; [apply wf_New|]. split; [exact Hn|].
  exact (Row_appends_nothing_unless_it_returns (H := noShortest)
           [VString "a"; VStringPtr None] pairTable (wf_New None _) Hn).
Defined.



(** X9: on a well-formed table of two columns or more, [AddStruct] on a
    struct with an unexported field panics at that field, after it has
    appended the rows of the fields before it. *)
Theorem AddStruct_panics_at_unexported_field `{Strconv.ShortestDecimal}
    (pre post : list (string * option value)) (name : string)
    (t : Table) (p : Z) :
  wf t -> 2 <= columns t -> precision t !! 1%nat = Some p ->
  Forall (fun fld => exists v, snd fld = Some v /\ noNilPointer v) pre ->
  exists t',
    AddStruct (RStruct (pre ++ (name, None) :: post)) t = (t', Panicked) /\
    rows t' = rows t ++ (fieldRow p <$> pre).
Proof. intros Ht Hc Hp Hf. by apply AddStruct_unexported. Qed.

Lemma AddStruct_panics_at_unexported_field_witness :
  wf pairTable /\
  AddStruct (H := noShortest) (RStruct hiddenField) pairTable
    = (fst (AddStruct (H := noShortest) (RStruct hiddenField) pairTable),
       Panicked) /\
  rows (fst (AddStruct (H := noShortest) (RStruct hiddenField) pairTable))
    = [["Alloc"; "7"]] /\
  exists t',
    AddStruct (H := noShortest)
      (RStruct ([("Alloc", Some (VUint64 7))] ++ ("secret", None)
                :: [("Ratio", Some (VInt 1))])) pairTable = (t', Panicked) /\
    rows t' = rows pairTable ++
              (fieldRow (H := noShortest) 0 <$> [("Alloc", Some (VUint64 7))]).
Proof.
  split; [apply wf_New|]. split; [reflexivity|]. split; [reflexivity|].
  apply (AddStruct_panics_at_unexported_field (H := noShortest)).
  - apply wf_New.
  - vm_compute. discriminate.
  - reflexivity.
  - constructor; [eexists; split; [reflexivity | by split] | constructor].
Defined.

(** X10: [Swap] of two rows that exist returns normally, exchanges them and
    changes nothing else, and a second [Swap] of the same two restores the
    table; [Swap] with an index that is no row panics and changes
    nothing. *)
Theorem Swap_exchanges_and_undoes (i j : Z) (t : Table) :
  (forall ri rj,
     index (rows t) i = Some ri -> index (rows t) j = Some rj ->
     exists rws,
       Swap i j t = (set_rows rws t, Done tt) /\
       index rws i = Some rj /\ index rws j = Some ri /\
       (forall k, k <> i -> k <> j -> index rws k = index (rows t) k) /\
       Swap i j (set_rows rws t) = (t, Done tt)) /\
  (index (rows t) i = None \/ index (rows t) j = None ->
   Swap i j t = (t, Panicked)).
Proof.
  split; [|apply Swap_out_of_range].
  intros ri rj Hi Hj.
  exists (<[Z.to_nat j := ri]> (<[Z.to_nat i := rj]> (rows t))).
  split; [by apply Swap_run|].
  pose proof (index_Some _ _ _ Hi) as [Hi0 Hi'].
  pose proof (index_Some _ _ _ Hj) as [Hj0 Hj'].
  destruct (swap_lookups (rows t) (Z.to_nat i) (Z.to_nat j) ri rj Hi' Hj')
    as [Li Lj].
  assert (Ei : index (<[Z.to_nat j := ri]> (<[Z.to_nat i := rj]> (rows t))) i
               = Some rj).
  { unfold index. rewrite (proj2 (Z.ltb_ge i 0)) by lia. rewrite Li.
    destruct (decide (Z.to_nat i = Z.to_nat j)) as [E|E]; [|done].
    rewrite E in Hi'. congruence. }
  assert (Ej : index (<[Z.to_nat j := ri]> (<[Z.to_nat i := rj]> (rows t))) j
               = Some ri).
  { unfold index. by rewrite (proj2 (Z.ltb_ge j 0)) by lia. }
  split; [done|]. split; [done|]. split.
  - intros k Hki Hkj. unfold index. destruct (k <? 0) eqn:Hk; [done|].
    apply Z.ltb_ge in Hk. by rewrite !list_lookup_insert_ne by lia.
  - rewrite (Swap_run _ i j rj ri) by done. cbn [rows set_rows].
    rewrite swap_twice by done. f_equal. by destruct t.
Qed.

(** Rows 0 and 2 of three, and an index past the last row. *)
Lemma Swap_exchanges_and_undoes_witness :
  index (rows lettersTable) 0 = Some ["b"; "2"] /\
  index (rows lettersTable) 2 = Some ["c"; "3"] /\
  (exists rws,
     Swap 0 2 lettersTable = (set_rows rws lettersTable, Done tt) /\
     index rws 0 = Some ["c"; "3"] /\ index rws 2 = Some ["b"; "2"] /\
     (forall k, k <> 0 -> k <> 2 -> index rws k = index (rows lettersTable) k) /\
     Swap 0 2 (set_rows rws lettersTable) = (lettersTable, Done tt)) /\
  (index (rows lettersTable) 0 = None \/ index (rows lettersTable) 3 = None) /\
  Swap 0 3 lettersTable = (lettersTable, Panicked).
Proof.
  assert (H0 : index (rows lettersTable) 0 = Some ["b"; "2"]) by reflexivity.
  assert (H2 : index (rows lettersTable) 2 = Some ["c"; "3"]) by reflexivity.
  assert (H3 : index (rows lettersTable) 0 = None \/
               index (rows lettersTable) 3 = None) by (right; reflexivity).
  split; [exact H0|]. split; [exact H2|].
  split; [exact (proj1 (Swap_exchanges_and_undoes 0 2 lettersTable) _ _ H0 H2)|].
  split; [exact H3|].
  exact (proj2 (Swap_exchanges_and_undoes 0 3 lettersTable) H3).
Defined.

(** X11: [Less] changes nothing; it never holds of a row and itself; when
    it holds of two rows it does not hold of them the other way round; and
    while no sort keys are set it holds of no two indices, rows or not. *)
Theorem Less_is_a_strict_order (i j : Z) (t : Table) :
  fst (Less i j t) = t /\
  snd (Less i i t) <> Done true /\
  (Less i j t = (t, Done true) -> Less j i t = (t, Done false)) /\
  (sortBy t = [] -> Less i j t = (t, Done false)).
Proof.
  split; [apply Less_reads_only|]. split; [apply Less_self|].
  split; [apply Less_flip | apply Less_unsorted].
Qed.

(** Rows "a" and "b" under the sort key of column 0, and the same rows with
    no sort key. *)
Lemma Less_is_a_strict_order_witness :
  Less 1 0 (set_sortBy [0] lettersTable)
    = (set_sortBy [0] lettersTable, Done true) /\
  Less 0 1 (set_sortBy [0] lettersTable)
    = (set_sortBy [0] lettersTable, Done false) /\
  sortBy lettersTable = [] /\
  Less 1 0 lettersTable = (lettersTable, Done false).
Proof.
  assert (E : Less 1 0 (set_sortBy [0] lettersTable)
              = (set_sortBy [0] lettersTable, Done true)) by reflexivity.
  assert (S0 : sortBy lettersTable = []) by reflexivity.
  split; [exact E|].
  split; [exact (proj1 (proj2 (proj2 (Less_is_a_strict_order 1 0
                   (set_sortBy [0] lettersTable)))) E)|].
  split; [exact S0|].
  exact (proj2 (proj2 (proj2 (Less_is_a_strict_order 1 0 lettersTable))) S0).
Defined.

(** X12: on a table of at most one row [Sort] compares nothing: it records
    the sort keys and returns, whatever the columns listed, columns that do
    not exist included. *)
Theorem Sort_of_one_row_never_panics (cols : list Z) (t : Table) :
  (length (rows t) <= 1)%nat -> Sort cols t = (set_sortBy cols t, Done tt).
Proof. apply Sort_short. Qed.

Lemma Sort_of_one_row_never_panics_witness :
  (length (rows pairTable) <= 1)%nat /\
  Sort [7; -3] pairTable = (set_sortBy [7; -3] pairTable, Done tt).
Proof.
  assert (Hn : (length (rows pairTable) <= 1)%nat) by (simpl; lia).
  split; [exact Hn|].
  exact (Sort_of_one_row_never_panics [7; -3] pairTable Hn).
Defined.

(** X13: on a well-formed table of two rows or more, [Sort] by a first
    column that is negative or not below the column count panics at its
    first comparison: the sort keys are recorded and the rows are as they
    were. *)
Theorem Sort_panics_on_missing_column (k : Z) (ks : list Z) (t : Table) :
  wf t -> (2 <= length (rows t))%nat -> k < 0 \/ columns t <= k ->
  Sort (k :: ks) t = (set_sortBy (k :: ks) t, Panicked).
Proof. apply Sort_bad_column. Qed.

Lemma Sort_panics_on_missing_column_witness :
  wf lettersTable /\ (2 <= length (rows lettersTable))%nat /\
  (2 < 0 \/ columns lettersTable <= 2) /\
  Sort [2; 0] lettersTable = (set_sortBy [2; 0] lettersTable, Panicked).
Proof.
  assert (Ht : wf lettersTable).
  { unfold lettersTable.
    apply (preserves_bind wf);
      [apply preserves_Row
      |intros _; apply (preserves_bind wf); intros; apply preserves_Row
      |apply wf_New]. }
  assert (Hn : (2 <= length (rows lettersTable))%nat) by (vm_compute; lia).
  assert (Hk : 2 < 0 \/ columns lettersTable <= 2)
    by (right; vm_compute; discriminate).
  split; [exact Ht|]. split; [exact Hn|]. split; [exact Hk|].
  exact (Sort_panics_on_missing_column 2 [0] lettersTable Ht Hn Hk).
Defined.

(** X14: however [Sort] ends, the rows it leaves are the rows it was given,
    in some order, the sort keys are the columns listed, and nothing else
    has changed. *)
Theorem Sort_keeps_every_row (cols : list Z) (t : Table) :
  exists rws,
    fst (Sort cols t) = set_rows rws (set_sortBy cols t) /\ rws ≡ₚ rows t.
Proof. apply Sort_permutes. Qed.

(** X15: on a well-formed table whose caps are each at most zero or at
    least three, [Print] to a sink whose writes succeed returns normally
    and leaves the table with its widths clamped; on the recording sink
    what it appends is the complete rendering of that table. *)
Theorem Print_returns_under_sound_caps {W} `{Writer W}
    (t : Table) (w : W) (l : list string) :
  Reliable W -> wf t -> Forall capOk (maxWidths t) ->
  (exists w', Print (t, w) = ((clampedTable t, w'), Done tt)) /\
  Print (t, l) = ((clampedTable t, l ++ rendering (clampedTable t)), Done tt).
Proof.
  intros R Ht Hc. split; [by apply Print_ok|].
  destruct (Print_ok t l Reliable_Recorder Ht Hc) as [l' E].
  destruct (Print_recorded_done _ _ _ _ E) as [_ ->]. exact E.
Qed.

Lemma Print_returns_under_sound_caps_witness :
  Reliable (list string) /\ wf cappedTable /\
  Forall capOk (maxWidths cappedTable) /\
  (exists w', Print (cappedTable, ["x"]) =
                ((clampedTable cappedTable, w'), Done tt)) /\
  Print (cappedTable, ["x"]) =
    ((clampedTable cappedTable,
      ["x"] ++ rendering (clampedTable cappedTable)), Done tt).
Proof.
  assert (Ht : wf cappedTable).
  { unfold cappedTable. apply preserves_MaxWidth, wf_New. }
  assert (Hc : Forall capOk (maxWidths cappedTable)).
  { assert (E : maxWidths cappedTable = [4]) by reflexivity. rewrite E.
    constructor; [right; lia | constructor]. }
  split; [exact Reliable_Recorder|]. split; [exact Ht|]. split; [exact Hc|].
  exact (Print_returns_under_sound_caps cappedTable ["x"] ["x"]
           Reliable_Recorder Ht Hc).
Defined.

(** X16: on a sink that refuses every write, [Print] of such a table
    returns the error of the first write and attempts no second one; the
    widths are clamped all the same. *)
Theorem Print_stops_at_first_failed_write (e : error) (t : Table) (n : nat) :
  wf t -> Forall capOk (maxWidths t) ->
  @Print nat (failing e) (t, n) = ((clampedTable t, S n), Failed e).
Proof.
  intros Ht Hc. rewrite Print_run.
  rewrite (proj2 (Nat.leb_le _ _))
    by (rewrite (wf_widths t Ht), (wf_maxWidths t Ht); lia).
  by rewrite (printLines_failing e (clampedTable t) n)
    by (by apply wf_clampedTable || done).
Qed.

Lemma Print_stops_at_first_failed_write_witness :
  wf cappedTable /\ Forall capOk (maxWidths cappedTable) /\
  @Print nat (failing "closed") (cappedTable, 0%nat) =
    ((clampedTable cappedTable, 1%nat), Failed "closed").
Proof.
  assert (Ht : wf cappedTable).
  { unfold cappedTable. apply preserves_MaxWidth, wf_New. }
  assert (Hc : Forall capOk (maxWidths cappedTable)).
  { assert (E : maxWidths cappedTable = [4]) by reflexivity. rewrite E.
    constructor; [right; lia | constructor]. }
  split; [exact Ht|]. split; [exact Hc|].
  exact (Print_stops_at_first_failed_write "closed" cappedTable 0 Ht Hc).
Defined.

(** X17: a cell that its cap leaves whole, of a column whose tracked width
    [wd] covers it, is written as one chunk: in the last column its styled
    text alone, in any other its styled text and then
    [wd + padding - code points] spaces, so that without a style the chunk
    has [wd + padding] code points. *)
Theorem Print_pads_cells_to_width
    (t : Table) (j i : nat) (r : string) (mw wd : Z) (w : list string) :
  0 < columns t < 2 ^ 63 ->
  maxWidths t !! i = Some mw -> mw <= 0 \/ runeCount r <= mw ->
  widths t !! i = Some wd -> is_Some (format t !! i) ->
  0 <= padding t -> runeCount r <= wd -> wd + padding t < 2 ^ 63 ->
  exists chunk,
    printCell t j i r w = (w ++ [chunk], Done tt) /\
    (Z.of_nat i = columns t - 1 ->
     chunk = applyStyle (styleByPrecedence t j i r) r) /\
    (Z.of_nat i <> columns t - 1 ->
     chunk = applyStyle (styleByPrecedence t j i r) r
               +:+ spaces (Z.to_nat (wd + padding t - runeCount r)) /\
     (styleByPrecedence t j i r = None -> runeCount chunk = wd + padding t)).
Proof.
  intros Hn Hm Hc Hw Hf Hp Hr Hb.
  pose proof (runeCount_nonneg r) as H0.
  eexists. split; [by apply (printCell_uncapped t j i r mw wd)|].
  rewrite (int_small (wd + padding t)) by lia.
  rewrite (int_small (wd + padding t - runeCount r)) by lia.
  split.
  - intros Hi. apply padded_last. rewrite int_small by lia. exact Hi.
  - intros Hi. rewrite padded_inner by (rewrite int_small by lia; exact Hi).
    split; [done|]. intros ->. simpl.
    rewrite runeCount_app by apply plainStart_spaces.
    rewrite runeCount_spaces. lia.
Qed.

Lemma Print_pads_cells_to_width_witness :
  0 < columns lettersTable < 2 ^ 63 /\
  maxWidths lettersTable !! 0%nat = Some 0 /\
  (0 <= 0 \/ runeCount "a" <= 0) /\
  widths lettersTable !! 0%nat = Some 3 /\
  is_Some (format lettersTable !! 0%nat) /\
  0 <= padding lettersTable /\ runeCount "a" <= 3 /\
  3 + padding lettersTable < 2 ^ 63 /\
  exists chunk,
    printCell lettersTable 1 0 "a" [] = ([] ++ [chunk], Done tt) /\
    (Z.of_nat 0 = columns lettersTable - 1 ->
     chunk = applyStyle (styleByPrecedence lettersTable 1 0 "a") "a") /\
    (Z.of_nat 0 <> columns lettersTable - 1 ->
     chunk = applyStyle (styleByPrecedence lettersTable 1 0 "a") "a"
               +:+ spaces (Z.to_nat (3 + padding lettersTable - runeCount "a")) /\
     (styleByPrecedence lettersTable 1 0 "a" = None ->
      runeCount chunk = 3 + padding lettersTable)).
Proof.
  assert (H1 : 0 < columns lettersTable < 2 ^ 63) by (vm_compute; done).
  assert (H2 : maxWidths lettersTable !! 0%nat = Some 0) by reflexivity.
  assert (H3 : 0 <= 0 \/ runeCount "a" <= 0) by (left; lia).
  assert (H4 : widths lettersTable !! 0%nat = Some 3) by reflexivity.
  assert (H5 : is_Some (format lettersTable !! 0%nat)) by (by eexists).
  assert (H6 : 0 <= padding lettersTable) by (vm_compute; discriminate).
  assert (H7 : runeCount "a" <= 3) by (vm_compute; discriminate).
  assert (H8 : 3 + padding lettersTable < 2 ^ 63) by (vm_compute; done).
  do 8 (split; [assumption|]).
  exact (Print_pads_cells_to_width lettersTable 1 0 "a" 0 3 [] H1 H2 H3 H4 H5
           H6 H7 H8).
Defined.

(** X18: no call of an exported method changes the headers or the column
    count of the table, however the call ends. *)
Theorem calls_keep_headers_and_columns
    `{Strconv.ShortestDecimal} (c : call) (t : Table) :
  headers (exec c t) = headers t /\ columns (exec c t) = columns t.
Proof. by apply (shaped_exec (headers t) (columns t) c t). Qed.

(** X19: in every table a program can reach from [New], the slices of
    widths, caps, precisions and column styles each have one entry per
    header, and the column count is the number of headers. *)
Theorem reachable_tables_are_consistent
    `{Strconv.ShortestDecimal} (t : Table) :
  reachable t ->
  columns t = Z.of_nat (length (headers t)) /\
  length (widths t) = length (headers t) /\
  length (maxWidths t) = length (headers t) /\
  length (precision t) = length (headers t) /\
  length (format t) = length (headers t).
Proof. intros Ht. by destruct (reachable_wf t Ht). Qed.

Lemma reachable_tables_are_consistent_witness :
  reachable (H := noShortest) startedTable /\
  columns startedTable = Z.of_nat (length (headers startedTable)) /\
  length (widths startedTable) = length (headers startedTable) /\
  length (maxWidths startedTable) = length (headers startedTable) /\
  length (precision startedTable) = length (headers startedTable) /\
  length (format startedTable) = length (headers startedTable).
Proof.
  assert (Hr : reachable (H := noShortest) startedTable).
  { unfold startedTable, pairTable.
    apply reachable_call, reachable_call, reachable_New. }
  split; [exact Hr|].
  exact (reachable_tables_are_consistent (H := noShortest) startedTable Hr).
Defined.

(** X20: the function [Format] returns wraps its argument between the
    escape sequence that carries the decimal codes, joined by semicolons in
    the order given, and the reset sequence. *)
Theorem Format_wraps_in_escape_codes (attr : list Ansi.CodeANSI) (s : string) :
  Z.of_nat (length attr) < 2 ^ 63 ->
  Ansi.Format attr s =
    Ansi.esc +:+ "[" +:+
    String.concat ";" ((fun a => Strconv.Itoa (int a)) <$> attr) +:+ "m" +:+
    s +:+ Ansi.esc +:+ "[0m".
Proof. intros Hb. unfold Ansi.Format. by rewrite buildList_join. Qed.

Lemma Format_wraps_in_escape_codes_witness :
  Z.of_nat (length [Ansi.Bold; Ansi.Red; Ansi.Background Ansi.White]) < 2 ^ 63 /\
  Ansi.Format [Ansi.Bold; Ansi.Red; Ansi.Background Ansi.White] "x" =
    Ansi.esc +:+ "[1;31;47mx" +:+ Ansi.esc +:+ "[0m".
Proof.
  assert (Hb : Z.of_nat (length [Ansi.Bold; Ansi.Red;
                                 Ansi.Background Ansi.White]) < 2 ^ 63)
    by (simpl; lia).
  split; [exact Hb|].
  exact (Format_wraps_in_escape_codes
           [Ansi.Bold; Ansi.Red; Ansi.Background Ansi.White] "x" Hb).
Defined.

(** X21: [appendWhitespace] keeps the bytes it is given and adds [count]
    spaces, none when [count] is negative. *)
Theorem appendWhitespace_adds_count_spaces (b : string) (count : Z) :
  appendWhitespace b count = b +:+ spaces (Z.to_nat count) /\
  len (appendWhitespace b count) = len b + Z.max 0 count.
Proof.
  rewrite appendWhitespace_spaces. split; [done|].
  rewrite len_app. unfold len. rewrite length_spaces. lia.
Qed.
